(** * helfertool: jobs, shift grouping and the public registration views

  A shallow embedding of [registration/models/job.py] and
  [registration/views/registration.py].

  - Python values are modelled by records; integers are [Z].
  - The relational store is a record of tables (lists of rows) with the
    many-to-many "through" tables written out.
  - The plain [dict] built by [shifts_by_day] is a [gmap]; the
    [OrderedDict] it returns is an association list, since its iteration
    order is part of the result.
  - Views run in a small state-and-exception monad over the store. *)

From stdpp Require Import gmap strings list sorting.
From Stdlib Require Import ZArith Lia.

Local Open Scope Z_scope.

(** ** Python comparison of tuples of integers *)

Module PyOrder.

(** [a < b], [a == b], [a > b] on tuples of integers: lexicographic, a
    proper prefix being smaller. *)
Fixpoint tuple_cmp (a b : list Z) : comparison :=
  match a, b with
  | [], [] => Eq
  | [], _ :: _ => Lt
  | _ :: _, [] => Gt
  | x :: a', y :: b' =>
      match x ?= y with
      | Eq => tuple_cmp a' b'
      | c => c
      end
  end.

Definition tuple_leb (a b : list Z) : bool :=
  match tuple_cmp a b with Gt => false | _ => true end.

Definition tuple_ltb (a b : list Z) : bool :=
  match tuple_cmp a b with Lt => true | _ => false end.

End PyOrder.

(** ** [sorted(iterable, key=...)]

  Python's [sorted] is a stable sort.  It is modelled by the stable
  insertion sort: every stable sort for a total preorder on the keys
  returns the same list. *)

Section sorted.
Context {A : Type} (key : A → list Z).

Fixpoint insert_by_key (x : A) (l : list A) : list A :=
  match l with
  | [] => [x]
  | y :: l' =>
      if PyOrder.tuple_leb (key x) (key y) then x :: y :: l'
      else y :: insert_by_key x l'
  end.

Definition sorted (l : list A) : list A := foldr insert_by_key [] l.

Definition key_le (x y : A) : Prop := PyOrder.tuple_leb (key x) (key y) = true.

End sorted.

(** ** Values of the data model *)

(** [datetime.date]: compared and hashed by [(year, month, day)]. *)
Record date := Date { year : Z; month : Z; day : Z }.

(** A naive [datetime.datetime]; [dt_date] holds its year, month and day. *)
Record datetime := Datetime {
  dt_date : date; hour : Z; minute : Z; second : Z; microsecond : Z
}.

(** [dt.date()] *)
Definition datetime_date (dt : datetime) : date := dt_date dt.

Definition date_key (d : date) : list Z := [year d; month d; day d].

Definition datetime_key (dt : datetime) : list Z :=
  date_key (dt_date dt) ++ [hour dt; minute dt; second dt; microsecond dt].

(** Ranges of the fields of a timestamp Python accepts. *)
Definition is_leap (y : Z) : bool :=
  ((y mod 4 =? 0) && negb (y mod 100 =? 0)) || (y mod 400 =? 0).

Definition days_in_month (y m : Z) : Z :=
  if m =? 2 then (if is_leap y then 29 else 28)
  else if (m =? 4) || (m =? 6) || (m =? 9) || (m =? 11) then 30
  else 31.

Definition well_formed_date (d : date) : bool :=
  (1 <=? year d) && (year d <=? 9999) && (1 <=? month d) && (month d <=? 12)
  && (1 <=? day d) && (day d <=? days_in_month (year d) (month d)).

Definition well_formed_datetime (dt : datetime) : bool :=
  well_formed_date (dt_date dt)
  && (0 <=? hour dt) && (hour dt <? 24) && (0 <=? minute dt) && (minute dt <? 60)
  && (0 <=? second dt) && (second dt <? 60)
  && (0 <=? microsecond dt) && (microsecond dt <? 1000000).

#[global] Instance date_eq_dec : EqDecision date.
Proof. solve_decision. Defined.

#[global] Instance datetime_eq_dec : EqDecision datetime.
Proof. solve_decision. Defined.

#[global] Instance date_countable : Countable date :=
  inj_countable' (λ d, (year d, month d, day d)) (λ t, Date t.1.1 t.1.2 t.2)
                 (λ d, match d with Date _ _ _ => eq_refl end).

(** [Event]: the flags the job model and the views read. *)
Record Event := {
  event_pk : Z;
  url_name : string;
  active : bool;
  archived : bool;
  badges : bool;
  mail_validation : bool
}.

(** [BadgeDefaults]: [bd_pk] is [None] until the row is saved. *)
Record BadgeDefaults := { bd_pk : option Z }.

(** [Job]; the many-to-many fields [job_admins] and [coordinators] live in
    the through tables of the store. *)
Record Job := {
  job_pk : Z;
  event : Event;
  name : string;
  public : bool;
  infection_instruction : bool;
  description : string;
  badge_defaults : option BadgeDefaults;
  archived_number_coordinators : Z
}.

(** [Shift], as far as the job model uses it. *)
Record Shift := { shift_pk : Z; job_id : Z; begin : datetime }.

Record Helper := { helper_pk : Z; email : string; validated : bool }.

Record Link := { link_pk : string; link_event_id : Z }.

Inductive MessageLevel := DEBUG | INFO | SUCCESS | WARNING | ERROR.

#[global] Instance Event_eq_dec : EqDecision Event.
Proof. solve_decision. Defined.
#[global] Instance BadgeDefaults_eq_dec : EqDecision BadgeDefaults.
Proof. solve_decision. Defined.
#[global] Instance Job_eq_dec : EqDecision Job.
Proof. solve_decision. Defined.
#[global] Instance Shift_eq_dec : EqDecision Shift.
Proof. solve_decision. Defined.
#[global] Instance Helper_eq_dec : EqDecision Helper.
Proof. solve_decision. Defined.
#[global] Instance Link_eq_dec : EqDecision Link.
Proof. solve_decision. Defined.
#[global] Instance MessageLevel_eq_dec : EqDecision MessageLevel.
Proof. solve_decision. Defined.

(** ** The store: one list of rows per table *)
Record Store := {
  tbl_event : list Event;
  tbl_job : list Job;
  tbl_shift : list Shift;
  tbl_helper : list Helper;
  tbl_link : list Link;
  tbl_badgedefaults : list BadgeDefaults;
  (** [Job.coordinators]: rows [(job pk, helper pk)] *)
  tbl_job_coordinators : list (Z * Z);
  (** [Job.job_admins]: rows [(job pk, user pk)] *)
  tbl_job_job_admins : list (Z * Z);
  (** [Helper.shifts]: rows [(helper pk, shift pk)] *)
  tbl_helper_shifts : list (Z * Z);
  (** [Link.shifts]: rows [(link pk, shift pk)] *)
  tbl_link_shifts : list (string * Z);
  (** the messages of [django.contrib.messages] queued for the user *)
  messages : list (MessageLevel * string)
}.

(** ** [OrderedDict] *)

Section OrderedDict.
Context {K V : Type} `{EqDecision K}.

Definition OrderedDict := list (K * V).

Definition od_keys (od : OrderedDict) : list K := od.*1.

Fixpoint od_getitem (k : K) (od : OrderedDict) : option V :=
  match od with
  | [] => None
  | (k', v) :: od' => if decide (k' = k) then Some v else od_getitem k od'
  end.

(** [od[k] = v]: an existing key keeps its place, a new one goes last. *)
Fixpoint od_setitem (k : K) (v : V) (od : OrderedDict) : OrderedDict :=
  match od with
  | [] => [(k, v)]
  | (k', v') :: od' =>
      if decide (k' = k) then (k, v) :: od' else (k', v') :: od_setitem k v od'
  end.

(** [OrderedDict(items)] *)
Definition OrderedDict_of (items : list (K * V)) : OrderedDict :=
  foldl (λ od kv, od_setitem kv.1 kv.2 od) [] items.

End OrderedDict.

Arguments OrderedDict : clear implicits.

(** ** [Job.shifts_by_day] *)

(** [self.shift_set.all()] *)
Definition shift_set (st : Store) (self : Job) : list Shift :=
  filter (λ s, job_id s = job_pk self) (tbl_shift st).

(** One round of the grouping loop. *)
Definition group_shift (tmp_shifts : gmap date (list Shift)) (shift : Shift)
  : gmap date (list Shift) :=
  let day := datetime_date (begin shift) in
  match tmp_shifts !! day with
  | Some l => <[day := l ++ [shift]]> tmp_shifts
  | None => <[day := [shift]]> tmp_shifts
  end.

(** One round of the loop that sorts the shifts of every day.  [day] is a
    key of [ordered_shifts], so the lookup succeeds ([od_sort_day_key]). *)
Definition sort_day (ordered_shifts : OrderedDict date (list Shift)) (day : date)
  : OrderedDict date (list Shift) :=
  match od_getitem day ordered_shifts with
  | Some l => od_setitem day (sorted (λ s, datetime_key (begin s)) l) ordered_shifts
  | None => ordered_shifts
  end.

(** [shifts] is [None] when the argument is left out.  [not shifts] holds
    for [None] and for an empty collection alike. *)
Definition shifts_by_day (st : Store) (self : Job) (shifts : option (list Shift))
  : OrderedDict date (list Shift) :=
  let shifts :=
    match shifts with
    | Some (s :: l) => s :: l
    | Some [] | None => shift_set st self
    end in
  let tmp_shifts := foldl group_shift ∅ shifts in
  let ordered_shifts :=
    OrderedDict_of (sorted (λ t, date_key t.1) (map_to_list tmp_shifts)) in
  foldl sort_day ordered_shifts (od_keys ordered_shifts).

(** ** Reading the result of [shifts_by_day] *)

Definition on_day (d : date) (s : Shift) : Prop := datetime_date (begin s) = d.

#[global] Instance on_day_dec d s : Decision (on_day d s).
Proof. unfold on_day. apply _. Defined.

(** The bucket of a day: absent when no shift falls on it. *)
Definition bucket (l : list Shift) : option (list Shift) :=
  match l with [] => None | _ => Some l end.

Definition sort_begin : list Shift → list Shift :=
  sorted (λ s, datetime_key (begin s)).

Definition date_lt (a b : date) : Prop :=
  PyOrder.tuple_ltb (date_key a) (date_key b) = true.

Definition datetime_le (a b : datetime) : Prop :=
  PyOrder.tuple_leb (datetime_key a) (datetime_key b) = true.

(** The collection the loops of [shifts_by_day] run over. *)
Definition shifts_used (st : Store) (self : Job) (shifts : option (list Shift))
  : list Shift :=
  match shifts with
  | Some (s :: l) => s :: l
  | _ => shift_set st self
  end.

(** The days in ascending order, each with its shifts stably sorted. *)
Definition days_sorted (S : list Shift) : OrderedDict date (list Shift) :=
  prod_map id sort_begin
    <$> sorted (λ t, date_key t.1) (map_to_list (foldl group_shift ∅ S)).

(** [od] groups the shifts [S] by day, in the words of the documentation
    of [shifts_by_day]. *)
Record grouped_by_day (S : list Shift) (od : OrderedDict date (list Shift))
  : Prop := {
  (** the keys are the dates of the shifts *)
  gbd_keys : ∀ d, d ∈ od_keys od ↔ ∃ s, s ∈ S ∧ datetime_date (begin s) = d;
  (** every date is one key *)
  gbd_keys_distinct : NoDup (od_keys od);
  (** the dates ascend *)
  gbd_keys_ascending : StronglySorted date_lt (od_keys od);
  (** a shift lies in the bucket of its own date *)
  gbd_bucket_day : ∀ d l s, (d, l) ∈ od → s ∈ l → datetime_date (begin s) = d;
  (** no shift is left out, none is repeated *)
  gbd_complete : concat od.*2 ≡ₚ S;
  (** within a bucket the start times ascend *)
  gbd_bucket_ascending :
    ∀ d l, (d, l) ∈ od → StronglySorted (λ a b, datetime_le (begin a) (begin b)) l;
  (** shifts with one start time keep the order they had in [S] *)
  gbd_stable :
    ∀ d l b, (d, l) ∈ od → datetime_date b = d →
      filter (λ s, begin s = b) l = filter (λ s, begin s = b) S
}.

(** ** Writing to the store *)

Definition set_tbl_job (rows : list Job) (st : Store) : Store :=
  {| tbl_event := tbl_event st; tbl_job := rows; tbl_shift := tbl_shift st;
     tbl_helper := tbl_helper st; tbl_link := tbl_link st;
     tbl_badgedefaults := tbl_badgedefaults st;
     tbl_job_coordinators := tbl_job_coordinators st;
     tbl_job_job_admins := tbl_job_job_admins st;
     tbl_helper_shifts := tbl_helper_shifts st;
     tbl_link_shifts := tbl_link_shifts st; messages := messages st |}.

Definition set_tbl_helper (rows : list Helper) (st : Store) : Store :=
  {| tbl_event := tbl_event st; tbl_job := tbl_job st; tbl_shift := tbl_shift st;
     tbl_helper := rows; tbl_link := tbl_link st;
     tbl_badgedefaults := tbl_badgedefaults st;
     tbl_job_coordinators := tbl_job_coordinators st;
     tbl_job_job_admins := tbl_job_job_admins st;
     tbl_helper_shifts := tbl_helper_shifts st;
     tbl_link_shifts := tbl_link_shifts st; messages := messages st |}.

Definition set_tbl_badgedefaults (rows : list BadgeDefaults) (st : Store) : Store :=
  {| tbl_event := tbl_event st; tbl_job := tbl_job st; tbl_shift := tbl_shift st;
     tbl_helper := tbl_helper st; tbl_link := tbl_link st;
     tbl_badgedefaults := rows;
     tbl_job_coordinators := tbl_job_coordinators st;
     tbl_job_job_admins := tbl_job_job_admins st;
     tbl_helper_shifts := tbl_helper_shifts st;
     tbl_link_shifts := tbl_link_shifts st; messages := messages st |}.

Definition set_tbl_job_coordinators (rows : list (Z * Z)) (st : Store) : Store :=
  {| tbl_event := tbl_event st; tbl_job := tbl_job st; tbl_shift := tbl_shift st;
     tbl_helper := tbl_helper st; tbl_link := tbl_link st;
     tbl_badgedefaults := tbl_badgedefaults st;
     tbl_job_coordinators := rows;
     tbl_job_job_admins := tbl_job_job_admins st;
     tbl_helper_shifts := tbl_helper_shifts st;
     tbl_link_shifts := tbl_link_shifts st; messages := messages st |}.

Definition set_tbl_helper_shifts (rows : list (Z * Z)) (st : Store) : Store :=
  {| tbl_event := tbl_event st; tbl_job := tbl_job st; tbl_shift := tbl_shift st;
     tbl_helper := tbl_helper st; tbl_link := tbl_link st;
     tbl_badgedefaults := tbl_badgedefaults st;
     tbl_job_coordinators := tbl_job_coordinators st;
     tbl_job_job_admins := tbl_job_job_admins st;
     tbl_helper_shifts := rows;
     tbl_link_shifts := tbl_link_shifts st; messages := messages st |}.

Definition set_messages (msgs : list (MessageLevel * string)) (st : Store) : Store :=
  {| tbl_event := tbl_event st; tbl_job := tbl_job st; tbl_shift := tbl_shift st;
     tbl_helper := tbl_helper st; tbl_link := tbl_link st;
     tbl_badgedefaults := tbl_badgedefaults st;
     tbl_job_coordinators := tbl_job_coordinators st;
     tbl_job_job_admins := tbl_job_job_admins st;
     tbl_helper_shifts := tbl_helper_shifts st;
     tbl_link_shifts := tbl_link_shifts st; messages := msgs |}.

(** The primary key an auto-increment column hands out next. *)
Definition next_pk (pks : list Z) : Z := 1 + foldr Z.max 0 pks.

(** ** [Job.num_coordinators] *)

(** [self.coordinators.count()]: the rows of the through table that
    belong to the job. *)
Definition coordinators_count (st : Store) (self : Job) : Z :=
  Z.of_nat (length (filter (λ r, r.1 = job_pk self) (tbl_job_coordinators st))).

Definition num_coordinators (st : Store) (self : Job) : Z :=
  if archived (event self) then archived_number_coordinators self
  else coordinators_count st self.

(** [self.coordinators.add(helper)]: a pair that is linked already is
    not linked twice. *)
Definition coordinators_add (self : Job) (helper : Helper) (st : Store) : Store :=
  if decide ((job_pk self, helper_pk helper) ∈ tbl_job_coordinators st) then st
  else set_tbl_job_coordinators
         (tbl_job_coordinators st ++ [(job_pk self, helper_pk helper)]) st.

(** [self.coordinators.remove(helper)] *)
Definition coordinators_remove (self : Job) (helper : Helper) (st : Store) : Store :=
  set_tbl_job_coordinators
    (filter (λ r, r ≠ (job_pk self, helper_pk helper)) (tbl_job_coordinators st)) st.

(** ** [Job.helpers_and_coordinators]

    [helpers | coordinators] is one query: both filters joined by OR over
    the helper table, the many-to-many tables LEFT OUTER JOINed to it, and
    DISTINCT kept from its two operands. *)

(** The right-hand rows of a LEFT OUTER JOIN: NULL when nothing matches. *)
Definition outer {B} (rows : list (option B)) : list (option B) :=
  match rows with [] => [None] | _ => rows end.

(** [helper LEFT JOIN helper_shifts LEFT JOIN shift]: the job of each
    shift of [h]. *)
Definition joined_shift_jobs (st : Store) (h : Helper) : list (option Z) :=
  outer (r ← filter (λ r, r.1 = helper_pk h) (tbl_helper_shifts st);
         outer (Some ∘ job_id <$> filter (λ s, shift_pk s = r.2) (tbl_shift st))).

(** [helper LEFT JOIN job_coordinators]: each job [h] coordinates. *)
Definition joined_coordinated_jobs (st : Store) (h : Helper) : list (option Z) :=
  outer (Some ∘ fst <$> filter (λ r, r.2 = helper_pk h) (tbl_job_coordinators st)).

(** [WHERE shift.job_id = pk OR job_coordinators.job_id = pk]; a
    comparison with NULL does not hold. *)
Definition where_job (pk : Z) (row : Helper * option Z * option Z) : bool :=
  bool_decide (row.1.2 = Some pk) || bool_decide (row.2 = Some pk).

Definition helpers_and_coordinators (st : Store) (self : Job) : list Helper :=
  let joined :=
    h ← tbl_helper st;
    sj ← joined_shift_jobs st h;
    cj ← joined_coordinated_jobs st h;
    [(h, sj, cj)] in
  remove_dups ((λ row, row.1.1) <$> filter (λ row, where_job (job_pk self) row) joined).

(** ** [job_pre_save] and saving a job *)

(** Truth value of a nullable reference: model instances are true. *)
Definition truthy {A} (x : option A) : bool :=
  match x with Some _ => true | None => false end.

(** [defaults.save()]: a row without primary key is inserted and gets
    the next one; a row that has one is written in place. *)
Definition BadgeDefaults_save (defaults : BadgeDefaults) (st : Store)
  : BadgeDefaults * Store :=
  match bd_pk defaults with
  | None =>
      let saved := {| bd_pk := Some (next_pk (omap bd_pk (tbl_badgedefaults st))) |} in
      (saved, set_tbl_badgedefaults (tbl_badgedefaults st ++ [saved]) st)
  | Some pk =>
      if decide (defaults ∈ tbl_badgedefaults st) then (defaults, st)
      else (defaults, set_tbl_badgedefaults (tbl_badgedefaults st ++ [defaults]) st)
  end.

Definition set_badge_defaults (v : option BadgeDefaults) (j : Job) : Job :=
  {| job_pk := job_pk j; event := event j; name := name j; public := public j;
     infection_instruction := infection_instruction j;
     description := description j; badge_defaults := v;
     archived_number_coordinators := archived_number_coordinators j |}.

Definition job_pre_save (instance : Job) (st : Store) : Job * Store :=
  if badges (event instance) && negb (truthy (badge_defaults instance)) then
    let defaults := {| bd_pk := None |} in
    let '(defaults, st) := BadgeDefaults_save defaults st in
    (set_badge_defaults (Some defaults) instance, st)
  else (instance, st).

(** Writing the row of a job: in place when its primary key is in the
    table, at the end otherwise. *)
Definition write_job (instance : Job) (rows : list Job) : list Job :=
  if bool_decide (job_pk instance ∈ job_pk <$> rows)
  then (λ j, if decide (job_pk j = job_pk instance) then instance else j) <$> rows
  else rows ++ [instance].

(** [instance.save()]: the [pre_save] receiver runs, then the row is
    written. *)
Definition Job_save (instance : Job) (st : Store) : Job * Store :=
  let '(instance, st) := job_pre_save instance st in
  (instance, set_tbl_job (write_job instance (tbl_job st)) st).

(** ** Requests, responses and exceptions *)

Record User := { user_pk : option Z; is_authenticated : bool }.

Record Request := { user : User; POST : list (string * string) }.

(** The exceptions the views meet.  [SMTPException cls] is
    [smtplib.SMTPException] itself ([cls = None]) or one of its
    subclasses; [OtherException] is any class outside that family. *)
Inductive Exception :=
  | Http404
  | SMTPException (cls : option string)
  | OtherException (cls : string).

(** [isinstance(e, SMTPException)], the test of [except SMTPException]. *)
Definition isinstance_SMTPException (e : Exception) : bool :=
  match e with SMTPException _ => true | _ => false end.

(** [RegisterForm(data, event=..., shifts=..., link=...)] *)
Record RegisterForm := {
  form_data : option (list (string * string));
  form_event : Event;
  form_shifts : option (list Shift);
  form_link : bool
}.

(** What a form that validates hands to [save]. *)
Record CleanedData := { cd_email : string; cd_shifts : list Z }.

Inductive UrlArg := ArgStr (s : string) | ArgInt (z : Z).

Inductive ContextValue :=
  | CtxEvent (e : Event)
  | CtxForm (f : RegisterForm)
  | CtxBool (b : bool).

Inductive HttpResponse :=
  | render (template : string) (context : list (string * ContextValue))
  | HttpResponseRedirect (viewname : string) (args : list UrlArg)
  | NoPermissionPage.

#[global] Instance Exception_eq_dec : EqDecision Exception.
Proof. solve_decision. Defined.

(** Modelled from the spec: [nopermission] of views/utils.py is not under
    src/; it is "a permission-denial page renderer". *)
Definition nopermission (request : Request) : HttpResponse := NoPermissionPage.

(** ** The monad of the views: a store and an exception *)

Inductive Outcome (A : Type) :=
  | Return (a : A)
  | Raise (e : Exception).
Arguments Return {A} a.
Arguments Raise {A} e.

Definition View (A : Type) : Type := Store → Store * Outcome A.

#[global] Instance View_ret : MRet View := λ A a st, (st, Return a).

#[global] Instance View_bind : MBind View := λ A B f m st,
  match m st with
  | (st', Return a) => f a st'
  | (st', Raise e) => (st', Raise e)
  end.

Definition raise {A} (e : Exception) : View A := λ st, (st, Raise e).

Definition get_store : View Store := λ st, (st, Return st).

Definition modify_store (f : Store → Store) : View unit := λ st, (f st, Return tt).

(** [try: body  except <class matched by catches>: handler] *)
Definition try_except {A} (body : View A) (catches : Exception → bool)
  (handler : View A) : View A := λ st,
  match body st with
  | (st', Raise e) => if catches e then handler st' else (st', Raise e)
  | r => r
  end.

(** [messages.error(request, text)] *)
Definition messages_error (request : Request) (text : string) : View unit :=
  modify_store (λ st, set_messages (messages st ++ [(ERROR, text)]) st).

(** ** Lookups *)

(** [get_object_or_404(Event, url_name=event_url_name)] *)
Definition get_event_or_404 (event_url_name : string) : View Event := λ st,
  match list_find (λ e, url_name e = event_url_name) (tbl_event st) with
  | Some (_, event) => (st, Return event)
  | None => (st, Raise Http404)
  end.

(** [link.shifts.all()] *)
Definition Link_shifts_all (st : Store) (link : Link) : list Shift :=
  filter (λ s, (link_pk link, shift_pk s) ∈ tbl_link_shifts st) (tbl_shift st).

(** How [Link.objects.get(pk=link_pk)] ends. *)
Inductive LinkLookup :=
  | LinkFound (link : Link)
  | LinkDoesNotExist
  | LinkValueError.

(** A helper belongs to an event through a shift it holds or a job it
    coordinates. *)
Definition helper_in_event (st : Store) (e : Event) (helper : Helper) : bool :=
  bool_decide (Exists (λ j, event_pk (event j) = event_pk e
      ∧ (Exists (λ s, job_id s = job_pk j
                       ∧ (helper_pk helper, shift_pk s) ∈ tbl_helper_shifts st)
                (tbl_shift st)
         ∨ (job_pk j, helper_pk helper) ∈ tbl_job_coordinators st))
    (tbl_job st)).

(** Modelled from the spec: [get_or_404] of views/utils.py is not under
    src/.  Called with an event name and a helper id it resolves both and
    raises the not-found signal "on any broken link in the chain": no such
    event, no such helper, or the helper "does not belong to this event".
    The job and the shift of the returned tuple are not asked for. *)
Definition get_or_404 (event_url_name : string) (helper_pk_ : Z)
  : View (Event * Helper) :=
  event ← get_event_or_404 event_url_name;
  st ← get_store;
  match list_find (λ h, helper_pk h = helper_pk_) (tbl_helper st) with
  | Some (_, helper) =>
      if helper_in_event st event helper then mret (event, helper)
      else raise Http404
  | None => raise Http404
  end.

Definition set_validated (v : bool) (h : Helper) : Helper :=
  {| helper_pk := helper_pk h; email := email h; validated := v |}.

(** Writing the row of a helper: in place when its primary key is in the
    table, at the end otherwise. *)
Definition write_helper (helper : Helper) (rows : list Helper) : list Helper :=
  if bool_decide (helper_pk helper ∈ helper_pk <$> rows)
  then (λ h, if decide (helper_pk h = helper_pk helper) then helper else h) <$> rows
  else rows ++ [helper].

(** [helper.save()] for a helper that has its primary key. *)
Definition Helper_save (helper : Helper) : View unit :=
  modify_store (λ st, set_tbl_helper (write_helper helper (tbl_helper st)) st).

(** ** The views *)

Section views.

(** [Event.is_involved(user)], of the event model. *)
Variable is_involved : Store → Event → User → bool.

(** Whether a string is a primary key of [Link] at all; [Link.objects.get]
    raises [ValueError] when it is not. *)
Variable valid_link_pk : string → bool.

(** The validation of [RegisterForm]: the cleaned data, or [None] when a
    field is in error. *)
Variable form_clean : Store → RegisterForm → option CleanedData.

(** [helper.send_mail(request, internal)]: [None] when it returns, the
    exception it raises otherwise. *)
Variable send_mail : Helper → Request → bool → option Exception.

(** [Link.objects.get(pk=link_pk)] *)
Definition Link_objects_get (st : Store) (pk : string) : LinkLookup :=
  if valid_link_pk pk then
    match list_find (λ l, link_pk l = pk) (tbl_link st) with
    | Some (_, link) => LinkFound link
    | None => LinkDoesNotExist
    end
  else LinkValueError.

(** [form.is_valid()]: a form without data is unbound and not valid. *)
Definition is_valid (st : Store) (form : RegisterForm) : bool :=
  match form_data form with
  | Some _ => truthy (form_clean st form)
  | None => false
  end.

(** Modelled from the spec: [RegisterForm.save] (registration/forms.py) is
    not under src/.  It "saves exactly one new Helper record" and links it
    to the chosen shifts. *)
Definition RegisterForm_save (form : RegisterForm) : View Helper := λ st,
  let cd := default {| cd_email := ""; cd_shifts := [] |} (form_clean st form) in
  let helper := {| helper_pk := next_pk (helper_pk <$> tbl_helper st);
                   email := cd_email cd; validated := false |} in
  (set_tbl_helper_shifts
     (tbl_helper_shifts st ++ ((λ s, (helper_pk helper, s)) <$> cd_shifts cd))
     (set_tbl_helper (tbl_helper st ++ [helper]) st),
   Return helper).

(** [request.POST or None] *)
Definition POST_or_None (request : Request) : option (list (string * string)) :=
  match POST request with [] => None | d => Some d end.

(** Lines 64 to 81 of the view [form]: "handle form". *)
Definition handle_form (request : Request) (event : Event) (link : option Link)
  (all_shifts : option (list Shift)) : View HttpResponse :=
  let form := {| form_data := POST_or_None request; form_event := event;
                 form_shifts := all_shifts; form_link := truthy link |} in
  st ← get_store;
  if is_valid st form then
    helper ← RegisterForm_save form;
    _ ← try_except
          (λ st, match send_mail helper request false with
                 | None => (st, Return tt)
                 | Some e => (st, Raise e)
                 end)
          isinstance_SMTPException
          (messages_error request
             "Sending the mail failed, but the registration was saved.");
    mret (HttpResponseRedirect "registered"
            [ArgStr (url_name event); ArgInt (helper_pk helper)])
  else
    mret (render "registration/form.html"
            [("event", CtxEvent event); ("form", CtxForm form)]).

(** Lines 53 to 81 of the view [form]: "check permission", then the form. *)
Definition check_permission (request : Request) (event : Event)
  (link : option Link) (all_shifts : option (list Shift)) : View HttpResponse :=
  st ← get_store;
  if negb (active event) && negb (truthy link) then
    (* not logged in -> show message *)
    if negb (is_authenticated (user request)) then
      mret (render "registration/not_active.html" [("event", CtxEvent event)])
    (* logged in -> check permission *)
    else if negb (is_involved st event (user request)) then
      mret (nopermission request)
    else handle_form request event link all_shifts
  else handle_form request event link all_shifts.

(** [if link_pk:] holds for a string that is not empty. *)
Definition link_given (link_pk : option string) : option string :=
  match link_pk with
  | Some pk => if bool_decide (pk = "") then None else Some pk
  | None => None
  end.

(** The view [form].  [link_pk] is [None] when the URL carries no link. *)
Definition form (request : Request) (event_url_name : string)
  (link_pk : option string) : View HttpResponse :=
  event ← get_event_or_404 event_url_name;
  st ← get_store;
  (* get link if given *)
  match link_given link_pk with
  | Some pk =>
      match Link_objects_get st pk with
      | LinkDoesNotExist | LinkValueError =>
          (* show some message when link does not exist *)
          mret (render "registration/invalid_link.html" [("event", CtxEvent event)])
      | LinkFound link =>
          let all_shifts := Link_shifts_all st link in
          (* check if link belongs to event *)
          if bool_decide (link_event_id link ≠ event_pk event) then raise Http404
          else check_permission request event (Some link) (Some all_shifts)
      end
  | None => check_permission request event None None
  end.

(** The view [validate]. *)
Definition validate (request : Request) (event_url_name : string)
  (helper_id : Z) : View HttpResponse :=
  '(event, helper) ← get_or_404 event_url_name helper_id;
  (* 404 if validation is not used *)
  if negb (mail_validation event) then raise Http404
  else
    let already_validated := validated helper in
    let helper := set_validated true helper in
    _ ← Helper_save helper;
    mret (render "registration/validate.html"
            [("event", CtxEvent event);
             ("already_validated", CtxBool already_validated)]).

End views.

(** ** Vocabulary of the statements about jobs *)

(** [h] holds a shift of the job. *)
Definition holds_shift (st : Store) (self : Job) (h : Helper) : Prop :=
  ∃ s, s ∈ tbl_shift st ∧ job_id s = job_pk self
       ∧ (helper_pk h, shift_pk s) ∈ tbl_helper_shifts st.

(** [h] is listed as a coordinator of the job. *)
Definition is_coordinator (st : Store) (self : Job) (h : Helper) : Prop :=
  (job_pk self, helper_pk h) ∈ tbl_job_coordinators st.

(** ** Vocabulary of the statements about the views *)

(** The text [form] queues when the mail transport fails. *)
Definition mail_failed_text : string :=
  "Sending the mail failed, but the registration was saved.".

(** The form the view [form] builds for a request. *)
Definition form_of (request : Request) (event : Event) (link : option Link)
  (all_shifts : option (list Shift)) : RegisterForm :=
  {| form_data := POST_or_None request; form_event := event;
     form_shifts := all_shifts; form_link := truthy link |}.

Section views_vocabulary.
Variable is_involved : Store → Event → User → bool.
Variable valid_link_pk : string → bool.

(** A request gets past "get link if given" with [link] and [all_shifts]:
    no link is given, or the link given exists and is a link of the
    event. *)
Definition link_resolved (st : Store) (event : Event) (link_pk : option string)
  (link : option Link) (all_shifts : option (list Shift)) : Prop :=
  match link_given link_pk with
  | None => link = None ∧ all_shifts = None
  | Some pk =>
      ∃ l, Link_objects_get valid_link_pk st pk = LinkFound l
           ∧ link_event_id l = event_pk event
           ∧ link = Some l ∧ all_shifts = Some (Link_shifts_all st l)
  end.

(** A request gets past "check permission". *)
Definition permitted (st : Store) (request : Request) (event : Event)
  (link : option Link) : Prop :=
  active event = true ∨ is_Some link
  ∨ (is_authenticated (user request) = true
     ∧ is_involved st event (user request) = true).

(** A request reaches "handle form" for [event], [link] and [all_shifts]. *)
Definition reaches_form (st : Store) (request : Request)
  (event_url_name : string) (link_pk : option string) (event : Event)
  (link : option Link) (all_shifts : option (list Shift)) : Prop :=
  get_event_or_404 event_url_name st = (st, Return event)
  ∧ link_resolved st event link_pk link all_shifts
  ∧ permitted st request event link.

End views_vocabulary.

(** ** [Job.__str__] and [Job.is_admin] *)

(** ["%s" % self.name] *)
Definition Job_str (self : Job) : string := name self.

(** [self.job_admins.filter(pk=user.pk).exists()]; a user without primary
    key (the anonymous user) matches no row. *)
Definition job_admins_exists (st : Store) (self : Job) (u : User) : bool :=
  match user_pk u with
  | Some pk => bool_decide ((job_pk self, pk) ∈ tbl_job_job_admins st)
  | None => false
  end.

Section is_admin.

(** [Event.is_admin(user)], of the event model. *)
Variable Event_is_admin : Store → Event → User → bool.

Definition is_admin (st : Store) (self : Job) (u : User) : bool :=
  Event_is_admin st (event self) u || job_admins_exists st self u.

End is_admin.

(** ** The views [index] and [registered] *)

(** What the templates of [index] and [registered] are given besides the
    values of [ContextValue]: a helper, and events that carry the
    attribute [involved] the view sets on them. *)
Inductive ContextItem :=
  | Ctx (v : ContextValue)
  | CtxHelper (h : Helper)
  | CtxEvents (es : list (Event * bool)).

(** [render(request, template, context)] for these two views. *)
Inductive Page :=
  | render_page (template : string) (context : list (string * ContextItem)).

Section more_views.

Variable is_involved : Store → Event → User → bool.

(** [news_test_email(email)], of the news application. *)
Variable news_test_email : Store → string → bool.

(** The events of [Event.objects.all()], each with [e.involved] set. *)
Definition index_events (st : Store) (request : Request) : list (Event * bool) :=
  (λ e, (e, is_involved st e (user request))) <$> tbl_event st.

Definition index (request : Request) : View Page :=
  st ← get_store;
  let events := index_events st request in
  (* filter events, that are not active and where user is not admin *)
  let active_events := filter (λ e, active e.1 = true) events in
  let involved_events :=
    filter (λ e, active e.1 = false ∧ e.2 = true) events in
  mret (render_page "registration/index.html"
          [("active_events", CtxEvents active_events);
           ("involved_events", CtxEvents involved_events)]).

Definition registered (request : Request) (event_url_name : string)
  (helper_id : Z) : View Page :=
  '(event, helper) ← get_or_404 event_url_name helper_id;
  st ← get_store;
  let news := news_test_email st (email helper) in
  mret (render_page "registration/registered.html"
          [("event", Ctx (CtxEvent event)); ("data", CtxHelper helper);
           ("news", Ctx (CtxBool news))]).

End more_views.

(** ** Vocabulary of the further statements *)

(** The references from jobs to badge defaults are sound: each names a
    row of the table, and no row is named by two jobs. *)
Definition badge_refs_sound (st : Store) : Prop :=
  (∀ j d, j ∈ tbl_job st → badge_defaults j = Some d → d ∈ tbl_badgedefaults st)
  ∧ (∀ j1 j2 d, j1 ∈ tbl_job st → j2 ∈ tbl_job st →
       badge_defaults j1 = Some d → badge_defaults j2 = Some d →
       job_pk j1 = job_pk j2).

#[global] Instance is_coordinator_dec st self h : Decision (is_coordinator st self h).
Proof. unfold is_coordinator. apply _. Defined.

(** * Facts *)

(** ** Tuple comparison is a total order *)

Module PyOrderFacts.
Import PyOrder.

Lemma tuple_cmp_refl a : tuple_cmp a a = Eq.
Proof. induction a as [|x a IH]; simpl; [done|]. by rewrite Z.compare_refl. Qed.

Lemma tuple_cmp_eq a b : tuple_cmp a b = Eq → a = b.
Proof.
  revert b; induction a as [|x a IH]; intros [|y b]; simpl; try done.
  destruct (Z.compare_spec x y); try done.
  intros ?; f_equal; auto.
Qed.

Lemma tuple_cmp_antisym a b : tuple_cmp b a = CompOpp (tuple_cmp a b).
Proof.
  revert b; induction a as [|x a IH]; intros [|y b]; simpl; try done.
  rewrite (Z.compare_antisym x y).
  destruct (x ?= y); simpl; auto.
Qed.

Lemma tuple_leb_refl a : tuple_leb a a = true.
Proof. unfold tuple_leb. by rewrite tuple_cmp_refl. Qed.

Lemma tuple_leb_total a b : tuple_leb a b = true ∨ tuple_leb b a = true.
Proof.
  unfold tuple_leb. rewrite (tuple_cmp_antisym a b).
  destruct (tuple_cmp a b); simpl; auto.
Qed.

Lemma tuple_cmp_lt_trans a b c :
  tuple_cmp a b = Lt → tuple_cmp b c = Lt → tuple_cmp a c = Lt.
Proof.
  revert b c; induction a as [|x a IH]; intros [|y b] [|z c]; simpl; try done.
  destruct (Z.compare_spec x y), (Z.compare_spec y z); try done;
    intros H1 H2; subst.
  - destruct (Z.compare_spec z z); try lia. eauto.
  - destruct (Z.compare_spec y z); try lia. done.
  - destruct (Z.compare_spec x z); try lia. done.
  - destruct (Z.compare_spec x z); try lia. done.
Qed.

Lemma tuple_leb_trans a b c :
  tuple_leb a b = true → tuple_leb b c = true → tuple_leb a c = true.
Proof.
  unfold tuple_leb.
  destruct (tuple_cmp a b) eqn:Hab; try done;
    destruct (tuple_cmp b c) eqn:Hbc; try done; intros _ _.
  - apply tuple_cmp_eq in Hab, Hbc; subst. by rewrite tuple_cmp_refl.
  - apply tuple_cmp_eq in Hab; subst. by rewrite Hbc.
  - apply tuple_cmp_eq in Hbc; subst. by rewrite Hab.
  - by rewrite (tuple_cmp_lt_trans a b c).
Qed.

Lemma tuple_leb_antisym a b :
  tuple_leb a b = true → tuple_leb b a = true → a = b.
Proof.
  unfold tuple_leb. rewrite (tuple_cmp_antisym a b).
  destruct (tuple_cmp a b) eqn:Hab; simpl; try done.
  intros _ _. by apply tuple_cmp_eq.
Qed.

Lemma tuple_ltb_leb a b : tuple_ltb a b = true → tuple_leb a b = true.
Proof. unfold tuple_ltb, tuple_leb. by destruct (tuple_cmp a b). Qed.

Lemma tuple_leb_ne_ltb a b :
  tuple_leb a b = true → a ≠ b → tuple_ltb a b = true.
Proof.
  unfold tuple_ltb, tuple_leb.
  destruct (tuple_cmp a b) eqn:Hab; try done.
  intros _ Hne. by apply tuple_cmp_eq in Hab.
Qed.

Lemma tuple_ltb_irrefl a : tuple_ltb a a = false.
Proof. unfold tuple_ltb. by rewrite tuple_cmp_refl. Qed.

End PyOrderFacts.

(** ** [sorted] sorts, permutes and is stable *)

Section sorted_facts.
Context {A : Type} (key : A → list Z).

Lemma insert_by_key_perm x l : insert_by_key key x l ≡ₚ x :: l.
Proof.
  induction l as [|y l IH]; simpl; [done|].
  case_match; [done|]. rewrite IH. apply Permutation_swap.
Qed.

Lemma sorted_perm l : sorted key l ≡ₚ l.
Proof.
  induction l as [|x l IH]; simpl; [done|].
  rewrite insert_by_key_perm. by rewrite IH.
Qed.

Lemma insert_by_key_Sorted x l :
  Sorted (key_le key) l → Sorted (key_le key) (insert_by_key key x l).
Proof.
  induction 1 as [|y l Hs IH Hhd]; simpl.
  - repeat constructor.
  - destruct (PyOrder.tuple_leb (key x) (key y)) eqn:Hxy.
    + repeat constructor; done.
    + constructor; [done|].
      assert (Hyx : key_le key y x).
      { destruct (PyOrderFacts.tuple_leb_total (key x) (key y)); [congruence|done]. }
      destruct Hhd as [|z l' Hyz]; simpl.
      * by constructor.
      * destruct (PyOrder.tuple_leb (key x) (key z)); by constructor.
Qed.

Lemma sorted_Sorted l : Sorted (key_le key) (sorted key l).
Proof.
  induction l as [|x l IH]; simpl; [constructor|].
  by apply insert_by_key_Sorted.
Qed.

Global Instance key_le_trans : Transitive (key_le key).
Proof. intros x y z. apply PyOrderFacts.tuple_leb_trans. Qed.

Lemma sorted_StronglySorted l : StronglySorted (key_le key) (sorted key l).
Proof. apply Sorted_StronglySorted; [apply _|apply sorted_Sorted]. Qed.

(** Stability: the elements that carry one given key come out in the
    order they went in. *)
Lemma insert_by_key_filter k x l :
  filter (λ y, key y = k) (insert_by_key key x l)
  = filter (λ y, key y = k) (x :: l).
Proof.
  induction l as [|y l IH]; simpl; [done|].
  destruct (PyOrder.tuple_leb (key x) (key y)) eqn:Hxy; [done|].
  rewrite (filter_cons _ y (insert_by_key key x l)), IH.
  rewrite !filter_cons.
  destruct (decide (key y = k)) as [Hy|Hy], (decide (key x = k)) as [Hx|Hx];
    try done.
  rewrite Hx, Hy, PyOrderFacts.tuple_leb_refl in Hxy. done.
Qed.

Lemma sorted_stable k l :
  filter (λ y, key y = k) (sorted key l) = filter (λ y, key y = k) l.
Proof.
  induction l as [|x l IH]; simpl; [done|].
  rewrite insert_by_key_filter, !filter_cons. by rewrite IH.
Qed.

Lemma sorted_elem_of x l : x ∈ sorted key l ↔ x ∈ l.
Proof. by rewrite sorted_perm. Qed.

Lemma sorted_nil_inv l : sorted key l = [] → l = [].
Proof.
  intros H. apply Permutation_nil_r. rewrite <- H. by rewrite sorted_perm.
Qed.
End sorted_facts.

(** ** Facts about [OrderedDict] *)

Section OrderedDict_facts.
Context {K V : Type} `{EqDecision K}.
Implicit Types (od : OrderedDict K V) (k : K) (v : V).

Lemma od_setitem_fresh k v od :
  k ∉ od_keys od → od_setitem k v od = od ++ [(k, v)].
Proof.
  unfold od_keys. induction od as [|[k' v'] od IH]; simpl; [done|].
  rewrite not_elem_of_cons. intros [Hne Hnin].
  rewrite decide_False by done. by rewrite IH.
Qed.

Lemma od_getitem_app_fresh k od1 od2 :
  k ∉ od_keys od1 → od_getitem k (od1 ++ od2) = od_getitem k od2.
Proof.
  unfold od_keys. induction od1 as [|[k' v'] od1 IH]; simpl; [done|].
  rewrite not_elem_of_cons. intros [Hne Hnin].
  rewrite decide_False by done. auto.
Qed.

Lemma od_setitem_app_fresh k v od1 od2 :
  k ∉ od_keys od1 → od_setitem k v (od1 ++ od2) = od1 ++ od_setitem k v od2.
Proof.
  unfold od_keys. induction od1 as [|[k' v'] od1 IH]; simpl; [done|].
  rewrite not_elem_of_cons. intros [Hne Hnin].
  rewrite decide_False by done. by rewrite IH.
Qed.

Lemma OrderedDict_of_app od (items : list (K * V)) :
  NoDup (od_keys (od ++ items)) →
  foldl (λ od kv, od_setitem kv.1 kv.2 od) od items = od ++ items.
Proof.
  unfold od_keys. revert od.
  induction items as [|[k v] items IH]; intros od Hnd; simpl.
  - by rewrite app_nil_r.
  - rewrite od_setitem_fresh.
    + rewrite IH; rewrite <- app_assoc; done.
    + rewrite fmap_app, fmap_cons in Hnd.
      apply NoDup_app in Hnd as (_ & Hdisj & _).
      intros Hin. apply (Hdisj _ Hin). simpl. left.
Qed.

(** Pairs with distinct keys make the dictionary that lists them. *)
Lemma OrderedDict_of_NoDup (items : list (K * V)) :
  NoDup items.*1 → OrderedDict_of items = items.
Proof. intros Hnd. unfold OrderedDict_of. by rewrite OrderedDict_of_app. Qed.

Lemma od_getitem_elem_of k v od :
  NoDup (od_keys od) → od_getitem k od = Some v ↔ (k, v) ∈ od.
Proof.
  unfold od_keys. induction od as [|[k' v'] od IH]; simpl.
  - rewrite elem_of_nil. by split.
  - rewrite NoDup_cons, elem_of_cons. intros [Hnin Hnd].
    destruct (decide (k' = k)) as [->|Hne].
    + split; [intros [= ->]; by left|].
      intros [[= ->]|Hin]; [done|].
      destruct Hnin. apply list_elem_of_fmap. by exists (k, v).
    + rewrite IH by done. split; [by right|].
      by intros [[= ? ?]|?].
Qed.

End OrderedDict_facts.

(** ** Facts about the grouping loop *)

Lemma group_shift_lookup tmp S s d :
  (∀ d, tmp !! d = bucket (filter (on_day d) S)) →
  group_shift tmp s !! d = bucket (filter (on_day d) (S ++ [s])).
Proof.
  intros Hinv. unfold group_shift.
  rewrite filter_app, filter_cons, filter_nil.
  destruct (decide (datetime_date (begin s) = d)) as [<-|Hne].
  - rewrite decide_True by done. rewrite Hinv.
    destruct (filter _ S) as [|x l]; simpl; by rewrite lookup_insert_eq.
  - rewrite decide_False by done. rewrite app_nil_r, <- Hinv.
    destruct (tmp !! _); by rewrite lookup_insert_ne.
Qed.

Lemma group_shifts_lookup S d :
  foldl group_shift ∅ S !! d = bucket (filter (on_day d) S).
Proof.
  revert d. induction S as [|s S IH] using rev_ind; intros d.
  - simpl. by rewrite lookup_empty.
  - rewrite foldl_snoc. by apply group_shift_lookup.
Qed.

Lemma map_to_list_replace (tmp : gmap date (list Shift)) d l l' :
  tmp !! d = Some l →
  ∃ rest, map_to_list tmp ≡ₚ (d, l) :: rest
          ∧ map_to_list (<[d := l']> tmp) ≡ₚ (d, l') :: rest.
Proof.
  intros Hd. exists (map_to_list (delete d tmp)). split.
  - symmetry. by apply map_to_list_delete.
  - rewrite <- insert_delete_eq. apply map_to_list_insert, lookup_delete_eq.
Qed.

Lemma concat_perm {A} (l1 l2 : list (list A)) : l1 ≡ₚ l2 → concat l1 ≡ₚ concat l2.
Proof.
  induction 1 as [|x l1 l2 _ IH|x y l|l1 l2 l3 _ IH1 _ IH2]; simpl.
  - done.
  - by rewrite IH.
  - rewrite !app_assoc. f_equiv. apply Permutation_app_comm.
  - by rewrite IH1.
Qed.

Lemma group_shifts_perm S : concat (map_to_list (foldl group_shift ∅ S)).*2 ≡ₚ S.
Proof.
  induction S as [|s S IH] using rev_ind.
  - simpl. by rewrite map_to_list_empty.
  - rewrite foldl_snoc.
    set (tmp := foldl group_shift ∅ S) in *. unfold group_shift.
    destruct (tmp !! datetime_date (begin s)) as [l|] eqn:Hd.
    + destruct (map_to_list_replace tmp _ l (l ++ [s]) Hd) as (rest & H1 & H2).
      rewrite (concat_perm _ _ (fmap_Permutation snd _ _ H2)).
      rewrite (concat_perm _ _ (fmap_Permutation snd _ _ H1)) in IH.
      simpl in *. rewrite <- IH.
      rewrite <- !app_assoc. f_equiv. apply Permutation_app_comm.
    + rewrite (concat_perm _ _ (fmap_Permutation snd _ _
                 (map_to_list_insert tmp _ [s] Hd))).
      simpl. rewrite IH. apply Permutation_cons_append.
Qed.

(** ** Facts about the loop that sorts every day *)

Lemma sort_days_app (pre post : OrderedDict date (list Shift)) :
  NoDup (od_keys (pre ++ post)) →
  foldl sort_day (pre ++ post) (od_keys post)
  = pre ++ (prod_map id sort_begin <$> post).
Proof.
  revert pre. induction post as [|[d l] post IH]; intros pre Hnd; simpl.
  - done.
  - assert (Hfresh : d ∉ od_keys pre).
    { unfold od_keys in *. rewrite fmap_app, fmap_cons in Hnd.
      apply NoDup_app in Hnd as (_ & Hdisj & _).
      intros Hin. apply (Hdisj _ Hin). simpl. left. }
    unfold sort_day at 2.
    rewrite od_getitem_app_fresh by done. simpl.
    rewrite decide_True by done.
    rewrite od_setitem_app_fresh by done. simpl.
    rewrite decide_True by done.
    rewrite (cons_middle _ pre post), app_assoc.
    rewrite IH.
    + rewrite <- app_assoc. done.
    + unfold od_keys in *. rewrite <- app_assoc. simpl.
      rewrite !fmap_app, !fmap_cons in *. done.
Qed.

Lemma sort_days (od : OrderedDict date (list Shift)) :
  NoDup (od_keys od) →
  foldl sort_day od (od_keys od) = prod_map id sort_begin <$> od.
Proof. intros Hnd. exact (sort_days_app [] od Hnd). Qed.

(** In the sorting loop every [day] is a key, the lookup never fails. *)
Lemma od_sort_day_key (od : OrderedDict date (list Shift)) d :
  d ∈ od_keys od → is_Some (od_getitem d od).
Proof.
  unfold od_keys. induction od as [|[k v] od IH]; simpl.
  - by rewrite elem_of_nil.
  - rewrite elem_of_cons. intros [->|Hin].
    + rewrite decide_True by done. eauto.
    + destruct (decide (k = d)); eauto.
Qed.

(** ** What [shifts_by_day] computes *)

Lemma date_key_inj a b : date_key a = date_key b → a = b.
Proof. destruct a, b; unfold date_key; simpl. by intros [= -> -> ->]. Qed.

Lemma datetime_key_inj a b : datetime_key a = datetime_key b → a = b.
Proof.
  destruct a as [[] ????], b as [[] ????]; unfold datetime_key; simpl.
  by intros [= -> -> -> -> -> -> ->].
Qed.

Lemma group_shifts_keys_NoDup S :
  NoDup (sorted (λ t : date * list Shift, date_key t.1)
           (map_to_list (foldl group_shift ∅ S))).*1.
Proof.
  rewrite (fmap_Permutation fst _ _ (sorted_perm _ _)).
  apply NoDup_fst_map_to_list.
Qed.

Lemma shifts_by_day_days_sorted st self shifts :
  shifts_by_day st self shifts = days_sorted (shifts_used st self shifts).
Proof.
  unfold shifts_by_day, days_sorted.
  assert (Heq : match shifts with
                | Some (s :: l) => s :: l
                | Some [] | None => shift_set st self
                end = shifts_used st self shifts) by (by destruct shifts as [[|]|]).
  rewrite Heq.
  pose proof (group_shifts_keys_NoDup (shifts_used st self shifts)) as Hnd.
  rewrite OrderedDict_of_NoDup by done.
  by rewrite sort_days.
Qed.

Lemma days_sorted_keys S :
  od_keys (days_sorted S)
  = (sorted (λ t : date * list Shift, date_key t.1)
       (map_to_list (foldl group_shift ∅ S))).*1.
Proof.
  unfold od_keys, days_sorted. rewrite <- list_fmap_compose.
  apply list_fmap_ext. by intros _ [d l] _.
Qed.

Lemma days_sorted_elem_of S d l :
  (d, l) ∈ days_sorted S →
  l = sort_begin (filter (on_day d) S) ∧ filter (on_day d) S ≠ [].
Proof.
  unfold days_sorted. rewrite list_elem_of_fmap.
  intros ([d' l0] & [= -> ->] & Hin).
  rewrite sorted_elem_of, elem_of_map_to_list, group_shifts_lookup in Hin.
  destruct (filter (on_day d') S) as [|x f]; simpl in Hin; [done|].
  injection Hin as <-. done.
Qed.

Lemma days_sorted_key_iff S d :
  d ∈ od_keys (days_sorted S) ↔ ∃ s, s ∈ S ∧ datetime_date (begin s) = d.
Proof.
  rewrite days_sorted_keys, (fmap_Permutation fst _ _ (sorted_perm _ _)).
  rewrite list_elem_of_fmap. split.
  - intros ([d' l] & -> & Hin).
    rewrite elem_of_map_to_list, group_shifts_lookup in Hin. simpl.
    destruct (filter (on_day d') S) as [|s f] eqn:Hf; simpl in Hin; [done|].
    exists s. apply and_comm, (list_elem_of_filter (on_day d')).
    rewrite Hf. left.
  - intros (s & Hin & Hd).
    assert (Hs : s ∈ filter (on_day d) S) by (by apply list_elem_of_filter).
    exists (d, filter (on_day d) S). split; [done|].
    rewrite elem_of_map_to_list, group_shifts_lookup.
    destruct (filter (on_day d) S); [by apply elem_of_nil in Hs|done].
Qed.

Lemma StronglySorted_strict {A} (R R' : relation A) (l : list A) :
  (∀ a b, R a b → a ≠ b → R' a b) →
  NoDup l → StronglySorted R l → StronglySorted R' l.
Proof.
  intros Himp Hnd Hs. induction Hs as [|x l Hs IH Hall]; [constructor|].
  apply NoDup_cons in Hnd as [Hnin Hnd]. constructor; [auto|].
  rewrite Forall_forall in *. intros y Hy. apply Himp; [auto|].
  intros ->. done.
Qed.

Lemma days_sorted_keys_ascending S :
  StronglySorted date_lt (od_keys (days_sorted S)).
Proof.
  rewrite days_sorted_keys.
  apply (StronglySorted_strict
           (λ a b, PyOrder.tuple_leb (date_key a) (date_key b) = true)).
  - intros a b Hle Hne. apply PyOrderFacts.tuple_leb_ne_ltb; [done|].
    intros Hk. by apply date_key_inj in Hk.
  - apply group_shifts_keys_NoDup.
  - eapply StronglySorted_fmap; [|apply sorted_StronglySorted].
    by intros [] [].
Qed.

Lemma concat_sorted_perm (l : list (date * list Shift)) :
  concat (prod_map id sort_begin <$> l).*2 ≡ₚ concat l.*2.
Proof.
  induction l as [|[d x] l IH]; simpl; [done|].
  unfold sort_begin at 1. by rewrite sorted_perm, IH.
Qed.

Lemma sort_begin_stable b l :
  filter (λ s, begin s = b) (sort_begin l) = filter (λ s, begin s = b) l.
Proof.
  rewrite (list_filter_iff (λ s, begin s = b)
             (λ s, datetime_key (begin s) = datetime_key b) (sort_begin l)).
  - rewrite (list_filter_iff (λ s, begin s = b)
               (λ s, datetime_key (begin s) = datetime_key b) l).
    + apply sorted_stable.
    + intros s. split; [by intros ->|apply datetime_key_inj].
  - intros s. split; [by intros ->|apply datetime_key_inj].
Qed.

(** The result groups the collection the loops ran over. *)
Lemma days_sorted_grouped S : grouped_by_day S (days_sorted S).
Proof.
  split.
  - apply days_sorted_key_iff.
  - rewrite days_sorted_keys. apply group_shifts_keys_NoDup.
  - apply days_sorted_keys_ascending.
  - intros d l s Hin Hs. apply days_sorted_elem_of in Hin as [-> _].
    unfold sort_begin in Hs. rewrite sorted_elem_of in Hs.
    by apply list_elem_of_filter in Hs as [? _].
  - unfold days_sorted. rewrite concat_sorted_perm.
    rewrite (concat_perm _ _ (fmap_Permutation snd _ _ (sorted_perm _ _))).
    apply group_shifts_perm.
  - intros d l Hin. apply days_sorted_elem_of in Hin as [-> _].
    apply sorted_StronglySorted.
  - intros d l b Hin Hb. apply days_sorted_elem_of in Hin as [-> _].
    rewrite sort_begin_stable. apply list_filter_filter_l.
    intros s Hs. unfold on_day. by rewrite Hs.
Qed.

(** ** Facts about [helpers_and_coordinators] *)

Lemma outer_Some {B} (x : B) (rows : list (option B)) :
  Some x ∈ outer rows ↔ Some x ∈ rows.
Proof.
  destruct rows as [|r rows]; simpl; [|done].
  rewrite list_elem_of_singleton, elem_of_nil. by split.
Qed.

Lemma outer_inhabited {B} (rows : list (option B)) : ∃ x, x ∈ outer rows.
Proof.
  destruct rows as [|r rows]; simpl.
  - exists None. left.
  - exists r. left.
Qed.

Lemma joined_shift_jobs_Some st self h :
  Some (job_pk self) ∈ joined_shift_jobs st h ↔ holds_shift st self h.
Proof.
  unfold joined_shift_jobs, holds_shift.
  rewrite outer_Some, list_elem_of_bind. split.
  - intros ([hp sp] & Hin & Hr).
    apply outer_Some, list_elem_of_fmap in Hin as (s & [= Hjob] & Hs).
    apply list_elem_of_filter in Hs as [Hpk Hs].
    apply list_elem_of_filter in Hr as [Hh Hr]. simpl in *.
    exists s. rewrite Hpk, <- Hh. done.
  - intros (s & Hs & Hjob & Hr).
    exists (helper_pk h, shift_pk s). split.
    + apply outer_Some, list_elem_of_fmap. exists s. simpl. split.
      * by rewrite Hjob.
      * by apply list_elem_of_filter.
    + by apply list_elem_of_filter.
Qed.

Lemma joined_coordinated_jobs_Some st self h :
  Some (job_pk self) ∈ joined_coordinated_jobs st h ↔ is_coordinator st self h.
Proof.
  unfold joined_coordinated_jobs, is_coordinator.
  rewrite outer_Some, list_elem_of_fmap. split.
  - intros ([jp hp] & [= Hj] & Hr).
    apply list_elem_of_filter in Hr as [Hh Hr]. simpl in *. by subst.
  - intros Hr. exists (job_pk self, helper_pk h). split; [done|].
    by apply list_elem_of_filter.
Qed.

Lemma where_job_true pk (row : Helper * option Z * option Z) :
  where_job pk row = true ↔ row.1.2 = Some pk ∨ row.2 = Some pk.
Proof.
  unfold where_job. rewrite orb_true_iff, !bool_decide_eq_true. done.
Qed.

(** ** Facts about primary keys and saving *)

Lemma next_pk_above pks pk : pk ∈ pks → pk < next_pk pks.
Proof.
  unfold next_pk. induction pks as [|x pks IH]; simpl.
  - by rewrite elem_of_nil.
  - rewrite elem_of_cons. intros [->|Hin]; [lia|]. specialize (IH Hin). lia.
Qed.

Lemma next_pk_fresh pks : next_pk pks ∉ pks.
Proof. intros Hin. apply next_pk_above in Hin. lia. Qed.

Lemma write_job_elem_of instance rows : instance ∈ write_job instance rows.
Proof.
  unfold write_job. case_bool_decide as Hin.
  - apply list_elem_of_fmap in Hin as (j & Hpk & Hj).
    apply list_elem_of_fmap. exists j. split; [|done].
    by rewrite decide_True.
  - apply elem_of_app. right. left.
Qed.

(** ** Counting the rows of a through table *)

Lemma length_filter_and_le {A} (P Q : A → Prop)
    `{!∀ a, Decision (P a), !∀ a, Decision (Q a)} (l : list A) :
  (length (filter (λ a, P a ∧ Q a) l) ≤ length (filter P l))%nat.
Proof.
  induction l as [|r l IH]; [done|]. rewrite !filter_cons.
  destruct (decide (P r)), (decide (P r ∧ Q r)) as [[??]|?]; simpl; try lia.
  done.
Qed.

Lemma length_filter_remove {A} `{EqDecision A} (P : A → Prop)
    `{!∀ a, Decision (P a)} (x : A) (l : list A) :
  x ∈ l → P x →
  (length (filter (λ a, P a ∧ a ≠ x) l) < length (filter P l))%nat.
Proof.
  intros Hin HP. induction l as [|r l IH]; [by apply elem_of_nil in Hin|].
  rewrite !filter_cons. apply elem_of_cons in Hin as [<-|Hin].
  - rewrite decide_False by (by intros [? ?]). rewrite decide_True by done.
    simpl. pose proof (length_filter_and_le P (λ a, a ≠ x) l). lia.
  - specialize (IH Hin).
    destruct (decide (P r)), (decide (P r ∧ r ≠ x)) as [[??]|?]; simpl; try lia.
    done.
Qed.

(** ** Facts about the views *)

Ltac view_unfold :=
  unfold mbind, mret, View_bind, View_ret, raise, get_store, modify_store,
    try_except, messages_error in *.

Lemma get_event_or_404_store event_url_name st st' r :
  get_event_or_404 event_url_name st = (st', r) → st' = st.
Proof.
  unfold get_event_or_404. destruct (list_find _ _) as [[? ?]|]; by intros [= <- _].
Qed.

Lemma get_or_404_Return_inv event_url_name helper_id st st' event helper :
  get_or_404 event_url_name helper_id st = (st', Return (event, helper)) →
  st' = st
  ∧ get_event_or_404 event_url_name st = (st, Return event)
  ∧ (∃ i, list_find (λ h, helper_pk h = helper_id) (tbl_helper st) = Some (i, helper))
  ∧ helper_in_event st event helper = true.
Proof.
  unfold get_or_404. view_unfold.
  destruct (get_event_or_404 event_url_name st) as [st0 [e|x]] eqn:He; [|done].
  apply get_event_or_404_store in He as Hst. subst st0.
  destruct (list_find _ _) as [[i h]|] eqn:Hfind; [|done].
  destruct (helper_in_event st e h) eqn:Hin; [|done].
  intros [= <- <- <-]. eauto.
Qed.

Section views_facts.
Variable is_involved : Store → Event → User → bool.
Variable valid_link_pk : string → bool.
Variable form_clean : Store → RegisterForm → option CleanedData.
Variable send_mail : Helper → Request → bool → option Exception.

Local Abbreviation view_form := (form is_involved valid_link_pk form_clean send_mail).
Local Abbreviation view_handle_form := (handle_form form_clean send_mail).
Local Abbreviation reaches := (reaches_form is_involved valid_link_pk).

(** A request that reaches "handle form" is answered by it. *)
Lemma form_reaches_handle_form st request event_url_name link_pk event link all_shifts :
  reaches st request event_url_name link_pk event link all_shifts →
  view_form request event_url_name link_pk st
  = view_handle_form request event link all_shifts st.
Proof.
  intros (Hev & Hlink & Hperm).
  unfold form, reaches_form, link_resolved, check_permission in *. view_unfold.
  rewrite Hev.
  destruct (link_given link_pk) as [pk|].
  - destruct Hlink as (l & -> & Hle & -> & ->).
    rewrite bool_decide_eq_false_2 by (by intros ?). simpl.
    by rewrite andb_false_r.
  - destruct Hlink as [-> ->]. simpl. rewrite andb_true_r.
    destruct Hperm as [Ha|[[? [=]]|[Hauth Hinv]]].
    + by rewrite Ha.
    + rewrite Hauth, Hinv. simpl. by destruct (active event).
Qed.

(** What "handle form" does with a form that validates. *)
Lemma handle_form_valid st request event link all_shifts :
  is_valid form_clean st (form_of request event link all_shifts) = true →
  let '(st_saved, saved) :=
    RegisterForm_save form_clean (form_of request event link all_shifts) st in
  ∃ helper, saved = Return helper ∧
    view_handle_form request event link all_shifts st
    = match send_mail helper request false with
      | None =>
          (st_saved, Return (HttpResponseRedirect "registered"
                               [ArgStr (url_name event); ArgInt (helper_pk helper)]))
      | Some e =>
          if isinstance_SMTPException e then
            (set_messages (messages st_saved ++ [(ERROR, mail_failed_text)]) st_saved,
             Return (HttpResponseRedirect "registered"
                       [ArgStr (url_name event); ArgInt (helper_pk helper)]))
          else (st_saved, Raise e)
      end.
Proof.
  intros Hvalid.
  unfold handle_form, form_of in *. view_unfold.
  rewrite Hvalid. unfold RegisterForm_save. simpl.
  eexists. split; [done|].
  destruct (send_mail _ request false) as [e|]; [|done].
  by destruct (isinstance_SMTPException e).
Qed.

End views_facts.

(** ** Facts about [validate] *)

Lemma get_event_or_404_tbl st st' event_url_name event :
  tbl_event st' = tbl_event st →
  get_event_or_404 event_url_name st = (st, Return event) →
  get_event_or_404 event_url_name st' = (st', Return event).
Proof.
  unfold get_event_or_404. intros ->.
  destruct (list_find _ _) as [[? ?]|]; [|done]. by intros [= ->].
Qed.

Lemma write_helper_found helper rows i old :
  list_find (λ h, helper_pk h = helper_pk helper) rows = Some (i, old) →
  list_find (λ h, helper_pk h = helper_pk helper) (write_helper helper rows)
  = Some (i, helper)
  ∧ write_helper helper (write_helper helper rows) = write_helper helper rows.
Proof.
  intros Hfind.
  assert (Hin : helper_pk helper ∈ helper_pk <$> rows).
  { apply list_find_Some in Hfind as (Hi & Hpk & _).
    apply list_elem_of_fmap. exists old. split; [done|].
    by eapply list_elem_of_lookup_2. }
  assert (Hin' : helper_pk helper ∈ helper_pk <$> write_helper helper rows).
  { unfold write_helper. rewrite bool_decide_eq_true_2 by done.
    rewrite <- list_fmap_compose.
    erewrite list_fmap_ext; [exact Hin|].
    intros _ h _. simpl. by destruct (decide _). }
  split.
  - unfold write_helper. rewrite bool_decide_eq_true_2 by done.
    rewrite list_find_fmap.
    erewrite (list_find_ext _ (λ h, helper_pk h = helper_pk helper)).
    + rewrite Hfind. simpl.
      apply list_find_Some in Hfind as (_ & Hpk & _).
      by rewrite decide_True.
    + intros h. simpl. destruct (decide _) as [Heq|]; [|done].
      by rewrite Heq.
  - unfold write_helper at 1. rewrite bool_decide_eq_true_2 by done.
    unfold write_helper. rewrite bool_decide_eq_true_2 by done.
    rewrite <- list_fmap_compose. apply list_fmap_ext.
    intros _ h _. simpl.
    destruct (decide (helper_pk h = helper_pk helper)).
    + by rewrite decide_True.
    + by rewrite decide_False.
Qed.

(** ** A sorted list is determined by its groups of equal keys *)

Section sorted_unique.
Context {A : Type} (key : A → list Z).

Lemma filter_key_nil (l : list A) :
  (∀ k, filter (λ y, key y = k) l = []) → l = [].
Proof.
  destruct l as [|x l]; [done|]. intros H. specialize (H (key x)).
  by rewrite filter_cons_True in H.
Qed.

Lemma sorted_unique (l1 l2 : list A) :
  StronglySorted (key_le key) l1 → StronglySorted (key_le key) l2 →
  (∀ k, filter (λ y, key y = k) l1 = filter (λ y, key y = k) l2) →
  l1 = l2.
Proof.
  intros Hs1. revert l2.
  induction Hs1 as [|x l1 Hs1 IH Hx]; intros l2 Hs2 Hf.
  - symmetry. apply filter_key_nil. intros k. by rewrite <- Hf.
  - destruct Hs2 as [|y l2 Hs2 Hy].
    { specialize (Hf (key x)). by rewrite filter_cons_True in Hf. }
    rewrite Forall_forall in Hx, Hy.
    assert (Hkey : key x = key y).
    { apply PyOrderFacts.tuple_leb_antisym.
      - assert (y ∈ x :: l1) as [->|Hin]%elem_of_cons.
        { eapply (list_elem_of_filter (λ z, key z = key y)).
          rewrite Hf, filter_cons_True by done. left. }
        + apply PyOrderFacts.tuple_leb_refl.
        + by apply Hx.
      - assert (x ∈ y :: l2) as [->|Hin]%elem_of_cons.
        { eapply (list_elem_of_filter (λ z, key z = key x)).
          rewrite <- Hf, filter_cons_True by done. left. }
        + apply PyOrderFacts.tuple_leb_refl.
        + by apply Hy. }
    pose proof (Hf (key x)) as Hhead.
    rewrite !filter_cons_True in Hhead by done.
    injection Hhead as -> Htail. f_equal. apply IH; [done|].
    intros k. destruct (decide (key y = k)) as [<-|Hne]; [done|].
    specialize (Hf k). by rewrite !filter_cons_False in Hf.
Qed.

(** The stable sort is the only sorted list with the groups of [l]. *)
Lemma sorted_characterised (l l' : list A) :
  StronglySorted (key_le key) l' →
  (∀ k, filter (λ y, key y = k) l' = filter (λ y, key y = k) l) →
  l' = sorted key l.
Proof.
  intros Hs Hf. apply sorted_unique; [done|apply sorted_StronglySorted|].
  intros k. by rewrite sorted_stable.
Qed.

End sorted_unique.

Lemma tuple_cmp_app_Lt (a b x y : list Z) :
  length a = length b →
  PyOrder.tuple_cmp a b = Lt → PyOrder.tuple_cmp (a ++ x) (b ++ y) = Lt.
Proof.
  revert b. induction a as [|u a IH]; intros [|v b]; simpl; try done.
  intros [= Hlen]. destruct (u ?= v); try done. by apply IH.
Qed.

Lemma tuple_cmp_Lt_trans_irrefl (a b : list Z) :
  PyOrder.tuple_cmp a b = Lt → PyOrder.tuple_cmp b a = Lt → False.
Proof.
  intros H1 H2. rewrite PyOrderFacts.tuple_cmp_antisym, H1 in H2. done.
Qed.

(** Strictly ascending lists of dates with the same members are equal. *)
Lemma ascending_dates_ext (l1 l2 : list date) :
  StronglySorted date_lt l1 → StronglySorted date_lt l2 →
  (∀ d, d ∈ l1 ↔ d ∈ l2) → l1 = l2.
Proof.
  assert (Hirr : ∀ d, ¬ date_lt d d).
  { intros d. unfold date_lt. by rewrite PyOrderFacts.tuple_ltb_irrefl. }
  assert (Hasym : ∀ a b, date_lt a b → date_lt b a → False).
  { unfold date_lt, PyOrder.tuple_ltb. intros a b Hab Hba.
    destruct (PyOrder.tuple_cmp (date_key a) (date_key b)) eqn:H1; try done.
    destruct (PyOrder.tuple_cmp (date_key b) (date_key a)) eqn:H2; try done.
    eauto using tuple_cmp_Lt_trans_irrefl. }
  intros Hs1. revert l2.
  induction Hs1 as [|x l1 Hs1 IH Hx]; intros l2 Hs2 Hmem.
  - destruct l2 as [|y l2]; [done|].
    exfalso. eapply elem_of_nil, Hmem. left.
  - destruct Hs2 as [|y l2 Hs2 Hy].
    { exfalso. eapply elem_of_nil, Hmem. left. }
    rewrite Forall_forall in Hx, Hy.
    assert (x = y) as <-.
    { assert (Hxy : x ∈ y :: l2) by (apply Hmem; left).
      assert (Hyx : y ∈ x :: l1) by (apply Hmem; left).
      apply elem_of_cons in Hxy as [?|Hxy]; [done|].
      apply elem_of_cons in Hyx as [?|Hyx]; [done|].
      destruct (Hasym x y); auto. }
    f_equal. apply IH; [done|]. intros d. split; intros Hd.
    + assert (Hd' : d ∈ x :: l2) by (apply Hmem; by right).
      apply elem_of_cons in Hd' as [->|?]; [|done].
      destruct (Hirr x). by apply Hx.
    + assert (Hd' : d ∈ x :: l1) by (apply Hmem; by right).
      apply elem_of_cons in Hd' as [->|?]; [|done].
      destruct (Hirr x). by apply Hy.
Qed.

(** ** The grouping, read as a function of the groups of equal start *)

Lemma datetime_key_cases (k : list Z) :
  (∃ b, datetime_key b = k) ∨ (∀ b, datetime_key b ≠ k).
Proof.
  destruct k as [|y [|m [|d [|h [|mi [|s [|us [|? ?]]]]]]]];
    try (right; intros [[] ????]; discriminate).
  left. by exists (Datetime (Date y m d) h mi s us).
Qed.

Lemma filter_none {A} (P : A → Prop) `{!∀ x, Decision (P x)} (l : list A) :
  (∀ x, x ∈ l → ¬ P x) → filter P l = [].
Proof.
  induction l as [|x l IH]; intros Hno; [done|].
  rewrite filter_cons_False by (apply Hno; left).
  apply IH. intros y Hy. apply Hno. by right.
Qed.

(** Groups of equal start time and groups of equal sort key are the same
    thing. *)
Lemma filter_begin_key_ext (S S' : list Shift) :
  (∀ b, filter (λ s, begin s = b) S = filter (λ s, begin s = b) S') →
  ∀ k, filter (λ s, datetime_key (begin s) = k) S
       = filter (λ s, datetime_key (begin s) = k) S'.
Proof.
  intros H k. destruct (datetime_key_cases k) as [[b <-]|Hno].
  - rewrite <- (list_filter_iff (λ s, begin s = b) _ S),
            <- (list_filter_iff (λ s, begin s = b) _ S'); [done| |];
      intros s; (split; [by intros ->|apply datetime_key_inj]).
  - rewrite !filter_none; [done| |]; intros s _; apply Hno.
Qed.

Lemma filter_begin_elem_of (S S' : list Shift) :
  (∀ b, filter (λ s, begin s = b) S = filter (λ s, begin s = b) S') →
  ∀ s, s ∈ S ↔ s ∈ S'.
Proof.
  intros H s. split; intros Hs.
  - eapply (list_elem_of_filter (λ x, begin x = begin s)).
    rewrite <- H. by apply list_elem_of_filter.
  - eapply (list_elem_of_filter (λ x, begin x = begin s)).
    rewrite H. by apply list_elem_of_filter.
Qed.

Lemma filter_comm {A} (P Q : A → Prop)
    `{!∀ x, Decision (P x), !∀ x, Decision (Q x)} (l : list A) :
  filter P (filter Q l) = filter Q (filter P l).
Proof.
  rewrite !list_filter_filter. apply list_filter_iff. intros x. tauto.
Qed.

Lemma od_repr (od : OrderedDict date (list Shift)) (f : date → list Shift) :
  (∀ d l, (d, l) ∈ od → l = f d) → od = (λ d, (d, f d)) <$> od_keys od.
Proof.
  unfold od_keys. induction od as [|[d l] od IH]; intros H; [done|].
  simpl. rewrite <- (H d l) by left. f_equal.
  apply IH. intros d' l' Hin. apply H. by right.
Qed.

Lemma days_sorted_repr S :
  days_sorted S
  = (λ d, (d, sort_begin (filter (on_day d) S))) <$> od_keys (days_sorted S).
Proof.
  apply od_repr. intros d l Hin. by apply days_sorted_elem_of in Hin as [-> _].
Qed.

Lemma days_sorted_ext (S S' : list Shift) :
  (∀ b, filter (λ s, begin s = b) S = filter (λ s, begin s = b) S') →
  days_sorted S = days_sorted S'.
Proof.
  intros H.
  assert (Hkeys : od_keys (days_sorted S) = od_keys (days_sorted S')).
  { apply ascending_dates_ext; try apply days_sorted_keys_ascending.
    intros d. rewrite !days_sorted_key_iff.
    split; intros (s & Hs & Hd); exists s; (split; [|done]);
      by apply (filter_begin_elem_of _ _ H). }
  rewrite (days_sorted_repr S), (days_sorted_repr S'), Hkeys.
  apply list_fmap_ext. intros _ d _. f_equal.
  apply (sorted_unique (λ s, datetime_key (begin s)));
    try apply sorted_StronglySorted.
  intros k. unfold sort_begin. rewrite !sorted_stable.
  rewrite !(filter_comm _ (on_day d)).
  by rewrite (filter_begin_key_ext S S' H).
Qed.

(** ** Flattening a grouping *)

Lemma filter_concat {A} (P : A → Prop) `{!∀ x, Decision (P x)} (ls : list (list A)) :
  filter P (concat ls) = concat (filter P <$> ls).
Proof.
  induction ls as [|l ls IH]; [done|]. simpl. by rewrite filter_app, IH.
Qed.

Lemma concat_one_bucket (P : Shift → Prop) `{!∀ x, Decision (P x)}
    (od : OrderedDict date (list Shift)) (d0 : date) (X : list Shift) :
  NoDup (od_keys od) →
  (∀ l, (d0, l) ∈ od → filter P l = X) →
  (∀ d l, (d, l) ∈ od → d ≠ d0 → filter P l = []) →
  concat (filter P <$> od.*2) = if decide (d0 ∈ od_keys od) then X else [].
Proof.
  unfold od_keys. induction od as [|[d l] od IH]; intros Hnd H0 Hne.
  - destruct (decide _) as [Hin|]; [by apply elem_of_nil in Hin|done].
  - rewrite !fmap_cons in *. apply NoDup_cons in Hnd as [Hnin Hnd].
    cbn [concat snd fst] in *.
    rewrite IH; [|done|intros; apply H0; by right|intros; eapply Hne; [by right|done]].
    destruct (decide (d = d0)) as [->|Hd].
    + rewrite (H0 l) by left.
      rewrite (decide_False (P := d0 ∈ od.*1)) by done. rewrite app_nil_r.
      by rewrite decide_True by left.
    + rewrite (Hne d l) by (done || left). cbn [app].
      destruct (decide (d0 ∈ od.*1)).
      * by rewrite decide_True by (by right).
      * rewrite decide_False; [done|]. intros [?|?]%elem_of_cons; done.
Qed.

Lemma elem_of_concat {A} (x : A) (ls : list (list A)) :
  x ∈ concat ls ↔ ∃ l, x ∈ l ∧ l ∈ ls.
Proof.
  induction ls as [|l ls IH]; simpl.
  - rewrite elem_of_nil. split; [done|]. by intros (? & _ & ?%elem_of_nil).
  - rewrite elem_of_app, IH. split.
    + intros [?|(l' & ? & ?)]; [exists l; split; [done|left]|].
      exists l'. split; [done|by right].
    + intros (l' & Hx & [->|?]%elem_of_cons); [by left|right; eauto].
Qed.

Lemma date_lt_begin_le (s1 s2 : Shift) :
  date_lt (datetime_date (begin s1)) (datetime_date (begin s2)) →
  key_le (λ s, datetime_key (begin s)) s1 s2.
Proof.
  unfold key_le, PyOrder.tuple_leb, datetime_key, datetime_date, date_lt,
    PyOrder.tuple_ltb.
  destruct (PyOrder.tuple_cmp (date_key (dt_date (begin s1)))
              (date_key (dt_date (begin s2)))) eqn:Hc; try done.
  by rewrite tuple_cmp_app_Lt.
Qed.

Lemma grouped_concat_sorted S od :
  grouped_by_day S od →
  StronglySorted (key_le (λ s, datetime_key (begin s))) (concat od.*2).
Proof.
  intros [_ _ Hasc Hday _ Hbucket _]. unfold od_keys in *.
  induction od as [|[d l] od IH]; [constructor|]. simpl in *.
  apply StronglySorted_cons in Hasc as [Hd Hasc].
  apply StronglySorted_app. split_and!.
  - intros s1 s2 Hs1 Hs2.
    apply elem_of_concat in Hs2 as (l2 & Hs2 & Hl2).
    apply list_elem_of_fmap in Hl2 as ([d2 l2'] & -> & Hin2). simpl in *.
    assert (Hd1 : datetime_date (begin s1) = d) by (eapply Hday; [left|done]).
    assert (Hd2 : datetime_date (begin s2) = d2) by (eapply Hday; [by right|done]).
    assert (Hlt : date_lt d d2).
    { rewrite Forall_forall in Hd. apply Hd.
      apply list_elem_of_fmap. by exists (d2, l2'). }
    apply date_lt_begin_le. by rewrite Hd1, Hd2.
  - apply (Hbucket d). left.
  - apply IH; [done| |].
    + intros d' l' s Hin. apply (Hday d' l' s). by right.
    + intros d' l' Hin. apply (Hbucket d' l'). by right.
Qed.

Lemma grouped_concat_filter S od b :
  grouped_by_day S od →
  filter (λ s, begin s = b) (concat od.*2) = filter (λ s, begin s = b) S.
Proof.
  intros [Hkeys Hnd _ Hday _ _ Hstable].
  rewrite filter_concat.
  rewrite (concat_one_bucket _ od (datetime_date b)
             (filter (λ s, begin s = b) S)); [|done| |].
  - destruct (decide _) as [|Hno]; [done|].
    symmetry. apply filter_none. intros s Hs <-.
    apply Hno, Hkeys. by exists s.
  - intros l Hin. by apply (Hstable (datetime_date b)).
  - intros d l Hin Hne. apply filter_none. intros s Hs <-.
    apply Hne. symmetry. by apply (Hday d l s).
Qed.

(** A mapping that groups [S] by day lists, bucket after bucket, the
    shifts of [S] stably sorted by start time. *)
Lemma grouped_concat S od :
  grouped_by_day S od → concat od.*2 = sort_begin S.
Proof.
  intros Hg. apply sorted_characterised; [by eapply grouped_concat_sorted|].
  apply filter_begin_key_ext. intros b. by apply grouped_concat_filter.
Qed.

Lemma filter_unique_key {A B} `{EqDecision B} (f : A → B) (b : B) (l : list A) :
  NoDup (f <$> l) → (length (filter (λ x, f x = b) l) ≤ 1)%nat.
Proof.
  induction l as [|x l IH]; [simpl; lia|].
  rewrite fmap_cons, NoDup_cons. intros [Hnin Hnd].
  rewrite filter_cons. destruct (decide (f x = b)) as [<-|]; [|auto].
  rewrite filter_none; [simpl; lia|].
  intros y Hy Heq. apply Hnin. rewrite <- Heq.
  apply list_elem_of_fmap. by exists y.
Qed.

(** When no two shifts start at the same time, a permutation of the
    shifts has the same groups of equal start. *)
Lemma distinct_begin_groups (S S' : list Shift) b :
  S ≡ₚ S' → NoDup (begin <$> S) →
  filter (λ s, begin s = b) S = filter (λ s, begin s = b) S'.
Proof.
  intros Hperm Hnd.
  assert (Hnd' : NoDup (begin <$> S')) by (by rewrite <- Hperm).
  pose proof (filter_unique_key begin b S Hnd) as H1.
  pose proof (filter_unique_key begin b S' Hnd') as H2.
  assert (Hp : filter (λ s, begin s = b) S ≡ₚ filter (λ s, begin s = b) S')
    by (by rewrite Hperm).
  destruct (filter _ S) as [|x [|??]], (filter _ S') as [|y [|??]];
    simpl in *; try lia; try done.
  - by apply Permutation_nil_cons in Hp.
  - symmetry in Hp. by apply Permutation_nil_cons in Hp.
  - by apply Permutation_singleton_inj in Hp as ->.
Qed.

(** ** Who is in [helpers_and_coordinators] *)

Lemma helpers_and_coordinators_elem_of st self h :
  h ∈ helpers_and_coordinators st self
  ↔ h ∈ tbl_helper st ∧ (holds_shift st self h ∨ is_coordinator st self h).
Proof.
  unfold helpers_and_coordinators. revert h.
  intros h. rewrite elem_of_remove_dups, list_elem_of_fmap. split.
  - intros ([[h' sj] cj] & -> & Hrow). simpl.
    apply list_elem_of_filter in Hrow as [Hwhere Hrow].
    apply Is_true_true, where_job_true in Hwhere. simpl in Hwhere.
    apply list_elem_of_bind in Hrow as (h0 & Hrow & Hh0).
    apply list_elem_of_bind in Hrow as (sj0 & Hrow & Hsj).
    apply list_elem_of_bind in Hrow as (cj0 & Hrow & Hcj).
    apply list_elem_of_singleton in Hrow as [= -> -> ->].
    split; [done|]. destruct Hwhere as [->| ->].
    + left. by apply joined_shift_jobs_Some.
    + right. by apply joined_coordinated_jobs_Some.
  - intros [Hh Hor].
    assert (∃ sj cj, sj ∈ joined_shift_jobs st h
                     ∧ cj ∈ joined_coordinated_jobs st h
                     ∧ where_job (job_pk self) (h, sj, cj) = true)
      as (sj & cj & Hsj & Hcj & Hwhere).
    { destruct Hor as [Hs|Hc].
      - destruct (outer_inhabited
                    (Some ∘ fst <$> filter (λ r, r.2 = helper_pk h)
                                      (tbl_job_coordinators st))) as [cj Hcj].
        exists (Some (job_pk self)), cj. split_and!; [|done|].
        + by apply joined_shift_jobs_Some.
        + apply where_job_true. by left.
      - destruct (outer_inhabited
                    (r ← filter (λ r, r.1 = helper_pk h) (tbl_helper_shifts st);
                     outer (Some ∘ job_id
                              <$> filter (λ s, shift_pk s = r.2) (tbl_shift st))))
          as [sj Hsj].
        exists sj, (Some (job_pk self)). split_and!; [done| |].
        + by apply joined_coordinated_jobs_Some.
        + apply where_job_true. by right. }
    exists (h, sj, cj). split; [done|].
    apply list_elem_of_filter. split; [by apply Is_true_true|].
    apply list_elem_of_bind. exists h. split; [|done].
    apply list_elem_of_bind. exists sj. split; [|done].
    apply list_elem_of_bind. exists cj. split; [|done].
    by apply list_elem_of_singleton.
Qed.

Lemma NoDup_fmap_elem_inj {A B} (f : A → B) (l : list A) x y :
  NoDup (f <$> l) → x ∈ l → y ∈ l → f x = f y → x = y.
Proof.
  induction l as [|z l IH]; [by intros _ ?%elem_of_nil|].
  rewrite fmap_cons, NoDup_cons. intros [Hnin Hnd].
  intros [->|Hx]%elem_of_cons [->|Hy]%elem_of_cons Heq; auto.
  - destruct Hnin. rewrite Heq. apply list_elem_of_fmap. by exists y.
  - destruct Hnin. rewrite <- Heq. apply list_elem_of_fmap. by exists x.
Qed.

Lemma write_job_elem_of_inv instance rows j :
  j ∈ write_job instance rows → j = instance ∨ j ∈ rows.
Proof.
  unfold write_job. case_bool_decide.
  - intros (j' & -> & Hj')%list_elem_of_fmap.
    destruct (decide _); auto.
  - intros [?|?%list_elem_of_singleton]%elem_of_app; auto.
Qed.

(** ** How the views end *)

Lemma get_event_or_404_cases event_url_name st :
  (get_event_or_404 event_url_name st = (st, Raise Http404)
   ∧ event_url_name ∉ url_name <$> tbl_event st)
  ∨ (∃ event, get_event_or_404 event_url_name st = (st, Return event)
              ∧ event ∈ tbl_event st ∧ url_name event = event_url_name).
Proof.
  unfold get_event_or_404.
  destruct (list_find _ _) as [[i e]|] eqn:Hfind.
  - right. exists e. apply list_find_Some in Hfind as (Hi & Hname & _).
    split_and!; [done| |done]. by eapply list_elem_of_lookup_2.
  - left. split; [done|]. apply list_find_None in Hfind.
    rewrite Forall_forall in Hfind.
    intros (e & -> & He)%list_elem_of_fmap. by apply (Hfind e).
Qed.

Lemma get_or_404_cases event_url_name helper_id st :
  get_or_404 event_url_name helper_id st = (st, Raise Http404)
  ∨ ∃ event helper,
      get_or_404 event_url_name helper_id st = (st, Return (event, helper)).
Proof.
  unfold get_or_404. view_unfold.
  destruct (get_event_or_404_cases event_url_name st)
    as [[-> _]|(e & -> & _)]; [by left|].
  destruct (list_find _ _) as [[i h]|]; [|by left].
  destruct (helper_in_event st e h); [right; eauto|by left].
Qed.

Section views_cases.
Variable is_involved : Store → Event → User → bool.
Variable valid_link_pk : string → bool.
Variable form_clean : Store → RegisterForm → option CleanedData.
Variable send_mail : Helper → Request → bool → option Exception.

Local Abbreviation the_form := (form is_involved valid_link_pk form_clean send_mail).
Local Abbreviation the_handle_form := (handle_form form_clean send_mail).
Local Abbreviation the_check_permission :=
  (check_permission is_involved form_clean send_mail).

(** "handle form" with a form that does not validate shows the form
    again and leaves the store alone. *)
Lemma handle_form_not_valid st request event link all_shifts :
  is_valid form_clean st (form_of request event link all_shifts) = false →
  the_handle_form request event link all_shifts st
  = (st, Return (render "registration/form.html"
                   [("event", CtxEvent event);
                    ("form", CtxForm (form_of request event link all_shifts))])).
Proof.
  intros Hvalid. unfold handle_form, form_of in *. view_unfold.
  by rewrite Hvalid.
Qed.

Lemma check_permission_cases st request event link all_shifts :
  the_check_permission request event link all_shifts st
  = (st, Return (render "registration/not_active.html" [("event", CtxEvent event)]))
  ∨ the_check_permission request event link all_shifts st
    = (st, Return (nopermission request))
  ∨ the_check_permission request event link all_shifts st
    = the_handle_form request event link all_shifts st.
Proof.
  unfold check_permission. view_unfold.
  destruct (negb (active event) && negb (truthy link)); [|auto].
  destruct (negb (is_authenticated (user request))); [auto|].
  destruct (negb (is_involved st event (user request))); auto.
Qed.

Lemma form_cases st request event_url_name link_pk :
  the_form request event_url_name link_pk st = (st, Raise Http404)
  ∨ (∃ event,
       the_form request event_url_name link_pk st
       = (st, Return (render "registration/invalid_link.html"
                        [("event", CtxEvent event)])))
  ∨ (∃ event link all_shifts,
       the_form request event_url_name link_pk st
       = the_check_permission request event link all_shifts st).
Proof.
  unfold form. view_unfold.
  destruct (get_event_or_404_cases event_url_name st)
    as [[-> _]|(e & -> & _)]; [by left|].
  destruct (link_given link_pk) as [pk|]; [|right; right; eauto].
  destruct (Link_objects_get valid_link_pk st pk) as [l| |];
    [|right; left; eauto..].
  case_bool_decide; [by left|right; right; eauto].
Qed.

End views_cases.

(** ** Writing one helper *)

Lemma write_helper_insert (new old : Helper) (rows : list Helper) (i : nat) :
  NoDup (helper_pk <$> rows) → rows !! i = Some old →
  helper_pk new = helper_pk old →
  write_helper new rows = <[i := new]> rows.
Proof.
  intros Hnd Hi Hpk. unfold write_helper.
  rewrite bool_decide_eq_true_2.
  2: { apply list_elem_of_fmap. exists old. split; [done|].
       by eapply list_elem_of_lookup_2. }
  rewrite Hpk. clear Hpk. revert i Hi.
  induction rows as [|r rows IH]; intros i Hi; [done|].
  rewrite fmap_cons in Hnd. apply NoDup_cons in Hnd as [Hnin Hnd].
  destruct i as [|i]; simpl in *.
  - injection Hi as ->. rewrite decide_True by done. f_equal.
    rewrite <- (list_fmap_id rows) at 2. apply list_fmap_ext.
    intros j h Hh. simpl. rewrite decide_False; [done|].
    intros Heq. apply Hnin. rewrite <- Heq.
    apply list_elem_of_fmap. exists h. split; [done|].
    by eapply list_elem_of_lookup_2.
  - rewrite decide_False.
    + f_equal. by apply IH.
    + intros Heq. apply Hnin. rewrite Heq.
      apply list_elem_of_fmap. exists old. split; [done|].
      by eapply list_elem_of_lookup_2.
Qed.

(** ** Filtering annotated events *)

Lemma filter_annotated {A B} (g : A → B) (P : A * B → Prop) (Q : A → Prop)
    `{!∀ x, Decision (P x), !∀ x, Decision (Q x)} (l : list A) :
  (∀ x, P (x, g x) ↔ Q x) →
  (filter P ((λ x, (x, g x)) <$> l)).*1 = filter Q l.
Proof.
  intros HPQ. induction l as [|x l IH]; [done|].
  rewrite fmap_cons, !filter_cons.
  destruct (decide (P (x, g x))) as [HP|HP], (decide (Q x)) as [HQ|HQ].
  - rewrite fmap_cons. simpl. by rewrite IH.
  - by apply HPQ in HP.
  - by apply HPQ in HQ.
  - done.
Qed.

(** ** Every way the view [form] ends *)

Section form_ends.
Variable is_involved : Store → Event → User → bool.
Variable valid_link_pk : string → bool.
Variable form_clean : Store → RegisterForm → option CleanedData.
Variable send_mail : Helper → Request → bool → option Exception.

Lemma form_ends st request event_url_name link_pk :
  form is_involved valid_link_pk form_clean send_mail
    request event_url_name link_pk st = (st, Raise Http404)
  ∨ (∃ event,
       form is_involved valid_link_pk form_clean send_mail
         request event_url_name link_pk st
       = (st, Return (render "registration/invalid_link.html"
                        [("event", CtxEvent event)])))
  ∨ (∃ event,
       form is_involved valid_link_pk form_clean send_mail
         request event_url_name link_pk st
       = (st, Return (render "registration/not_active.html"
                        [("event", CtxEvent event)])))
  ∨ form is_involved valid_link_pk form_clean send_mail
      request event_url_name link_pk st = (st, Return (nopermission request))
  ∨ (∃ event link all_shifts,
       reaches_form is_involved valid_link_pk st request event_url_name
         link_pk event link all_shifts
       ∧ form is_involved valid_link_pk form_clean send_mail
           request event_url_name link_pk st
         = handle_form form_clean send_mail request event link all_shifts st).
Proof.
  unfold form, check_permission, reaches_form, link_resolved, permitted.
  view_unfold.
  destruct (get_event_or_404_cases event_url_name st)
    as [[Hev _]|(e & Hev & _)]; rewrite Hev; [by left|].
  destruct (link_given link_pk) as [pk|].
  - destruct (Link_objects_get valid_link_pk st pk) as [l| |] eqn:Hget;
      [|right; left; eauto..].
    case_bool_decide as Hother; [by left|].
    simpl. rewrite andb_false_r.
    do 4 right. exists e, (Some l), (Some (Link_shifts_all st l)).
    split_and!; [done|eauto|right; left; eauto|done].
  - simpl. rewrite andb_true_r.
    destruct (active e) eqn:Hact; simpl.
    + do 4 right. exists e, None, None. split_and!; auto.
    + destruct (is_authenticated (user request)) eqn:Hauth; simpl;
        [|right; right; left; eauto].
      destruct (is_involved st e (user request)) eqn:Hinv; simpl;
        [|right; right; right; by left].
      do 4 right. exists e, None, None. split_and!; auto.
Qed.

End form_ends.

(** * The documented behaviour, checked *)

(** ** A small festival, used by the examples *)

Definition ex_event : Event :=
  {| event_pk := 1; url_name := "sommerfest"; active := true; archived := false;
     badges := true; mail_validation := true |}.

Definition ex_job : Job :=
  {| job_pk := 1; event := ex_event; name := "Bierstand"; public := true;
     infection_instruction := false; description := "";
     badge_defaults := None; archived_number_coordinators := 0 |}.

(** A job of the same event that has no shift yet. *)
Definition ex_job_new : Job :=
  {| job_pk := 2; event := ex_event; name := "Aufbau"; public := false;
     infection_instruction := false; description := "";
     badge_defaults := None; archived_number_coordinators := 0 |}.

Definition ex_shift (pk y m d h mi : Z) : Shift :=
  {| shift_pk := pk; job_id := 1; begin := Datetime (Date y m d) h mi 0 0 |}.

Definition ex_shifts : list Shift :=
  [ex_shift 1 2016 5 2 10 0; ex_shift 2 2016 5 1 12 0;
   ex_shift 3 2016 5 2 8 0; ex_shift 4 2016 5 2 10 0].

Definition ex_helper (pk : Z) (mail : string) : Helper :=
  {| helper_pk := pk; email := mail; validated := false |}.

(** An event that is closed for registration. *)
Definition ex_event_closed : Event :=
  {| event_pk := 2; url_name := "winterfest"; active := false; archived := true;
     badges := false; mail_validation := false |}.

Definition ex_store : Store :=
  {| tbl_event := [ex_event; ex_event_closed];
     tbl_job := [ex_job; ex_job_new];
     tbl_shift := ex_shifts;
     tbl_helper := [ex_helper 1 "a@example.org"; ex_helper 2 "b@example.org";
                    ex_helper 3 "c@example.org"];
     tbl_link := [{| link_pk := "k1"; link_event_id := 1 |};
                  {| link_pk := "k2"; link_event_id := 2 |}];
     tbl_badgedefaults := [];
     tbl_job_coordinators := [(1, 1)];
     tbl_job_job_admins := [];
     tbl_helper_shifts := [(1, 1); (1, 3); (2, 2)];
     tbl_link_shifts := [("k1", 1)];
     messages := [] |}.

(** The collaborators of the views, for the examples: user 1 is involved
    in every event, the keys of links are two characters long, a form
    validates when it carries an address, and the mail transport refuses
    one address and breaks down on another. *)
Definition ex_is_involved (st : Store) (e : Event) (u : User) : bool :=
  bool_decide (user_pk u = Some 1).

Definition ex_valid_link_pk (pk : string) : bool :=
  bool_decide (String.length pk = 2%nat).

Definition ex_form_clean (st : Store) (f : RegisterForm) : option CleanedData :=
  match form_data f with
  | Some (("email", mail) :: _) => Some {| cd_email := mail; cd_shifts := [1] |}
  | _ => None
  end.

Definition ex_send_mail (h : Helper) (request : Request) (internal : bool)
  : option Exception :=
  if bool_decide (email h = "refused@example.org")
  then Some (SMTPException (Some "SMTPRecipientsRefused"))
  else if bool_decide (email h = "broken@example.org")
  then Some (OtherException "socket.error")
  else None.

Definition ex_anonymous : User := {| user_pk := None; is_authenticated := false |}.

Definition ex_get : Request := {| user := ex_anonymous; POST := [] |}.

Definition ex_post (mail : string) : Request :=
  {| user := ex_anonymous; POST := [("email", mail)] |}.

(** ** [shifts_by_day] *)

Example ex_shifts_well_formed :
  Forall (λ s, well_formed_datetime (begin s) = true) ex_shifts.
Proof. repeat constructor. Qed.

(** The result for [ex_shifts]: the first of May before the second, the
    early shift first, the two ten o'clock shifts in their given order. *)
Example shifts_by_day_example :
  map (λ kv, (kv.1, map shift_pk kv.2)) (shifts_by_day ex_store ex_job (Some ex_shifts))
  = [(Date 2016 5 1, [2]); (Date 2016 5 2, [3; 1; 4])].
Proof. vm_compute. reflexivity. Qed.

(** Whatever the argument, the result groups the shifts the loops ran
    over. *)
Lemma shifts_by_day_grouped st self shifts :
  grouped_by_day (shifts_used st self shifts) (shifts_by_day st self shifts).
Proof. rewrite shifts_by_day_days_sorted. apply days_sorted_grouped. Qed.

(** C1, as the specification words it, fails for the empty collection of
    a job that has shifts: the keys are then the dates of the job's
    shifts, not the dates of the (no) shifts given. *)
Lemma shifts_by_day_empty_not_grouped :
  ¬ grouped_by_day [] (shifts_by_day ex_store ex_job (Some [])).
Proof.
  intros [Hkeys _ _ _ _ _ _].
  destruct (proj1 (Hkeys (Date 2016 5 1))) as (s & Hs & _).
  - apply list_elem_of_In. vm_compute. auto.
  - by apply elem_of_nil in Hs.
Qed.

(** C1, amended: for every collection of shifts [S] that is not empty,
    [shifts_by_day] returns a mapping whose keys are exactly the distinct
    dates of the [begin] values ([gbd_keys], [gbd_keys_distinct]), with no
    shift left out or repeated and each in the bucket of its date
    ([gbd_complete], [gbd_bucket_day]), the keys in ascending order
    ([gbd_keys_ascending]), the shifts of a bucket in ascending order of
    [begin] ([gbd_bucket_ascending]) and shifts with equal [begin] in the
    order they have in [S] ([gbd_stable]). *)
Theorem shifts_by_day_groups_given_shifts st self (S : list Shift) :
  S ≠ [] → grouped_by_day S (shifts_by_day st self (Some S)).
Proof.
  intros Hne. pose proof (shifts_by_day_grouped st self (Some S)) as H.
  by destruct S.
Qed.

Lemma shifts_by_day_groups_given_shifts_witness :
  ex_shifts ≠ []
  ∧ grouped_by_day ex_shifts (shifts_by_day ex_store ex_job (Some ex_shifts)).
Proof.
  split.
  - discriminate.
  - apply shifts_by_day_groups_given_shifts. discriminate.
Defined.

(** C9, as worded, fails for a job that owns no shift: the fallback runs
    over no shift at all and the mapping returned is empty. *)
Lemma shifts_by_day_empty_job_without_shifts :
  shifts_by_day ex_store ex_job_new (Some []) = [].
Proof. vm_compute. reflexivity. Qed.

(** C9, amended: for every job, an empty collection given explicitly
    triggers the fallback, the argument being tested for truth and not for
    absence: the result is that of [shifts_by_day] on all shifts of the
    job, which is also the result when the argument is left out; it groups
    the shifts of the job and is empty only when the job owns no shift. *)
Theorem shifts_by_day_empty_falls_back st self :
  shifts_by_day st self (Some []) = shifts_by_day st self (Some (shift_set st self))
  ∧ shifts_by_day st self (Some []) = shifts_by_day st self None
  ∧ grouped_by_day (shift_set st self) (shifts_by_day st self (Some []))
  ∧ (shifts_by_day st self (Some []) = [] ↔ shift_set st self = []).
Proof.
  pose proof (shifts_by_day_grouped st self (Some [])) as Hg. simpl in Hg.
  split_and!; try done.
  - rewrite !shifts_by_day_days_sorted. simpl. by destruct (shift_set st self).
  - split.
    + intros Hnil. rewrite Hnil in Hg. destruct Hg as [_ _ _ _ Hperm _ _].
      simpl in Hperm. symmetry. by apply Permutation_nil_l.
    + intros Hnil. rewrite Hnil in Hg. destruct Hg as [Hk _ _ _ _ _ _].
      destruct (shifts_by_day st self (Some [])) as [|[d l] od]; [done|].
      destruct (proj1 (Hk d)) as (s & Hs & _); [left|].
      by apply elem_of_nil in Hs.
Qed.

(** ** [num_coordinators] *)

(** C7: for a job whose event is not archived [num_coordinators] is the
    live count of the coordinators association (one more once a new
    coordinator is added); for a job whose event is archived it is the
    frozen [archived_number_coordinators], in every state of the store, so
    that adding or removing a coordinator does not change it. *)
Theorem num_coordinators_live_or_frozen st self h :
  if archived (event self) then
    (∀ st', num_coordinators st' self = archived_number_coordinators self)
    ∧ num_coordinators (coordinators_add self h st) self = num_coordinators st self
    ∧ num_coordinators (coordinators_remove self h st) self = num_coordinators st self
  else
    num_coordinators st self
    = Z.of_nat (length (filter (λ r, r.1 = job_pk self) (tbl_job_coordinators st)))
    ∧ (¬ is_coordinator st self h →
       num_coordinators (coordinators_add self h st) self
       = num_coordinators st self + 1)
    ∧ (is_coordinator st self h →
       num_coordinators (coordinators_add self h st) self = num_coordinators st self
       ∧ num_coordinators (coordinators_remove self h st) self
         < num_coordinators st self).
Proof.
  unfold num_coordinators, is_coordinator.
  destruct (archived (event self)); [done|].
  split_and!; [done| |].
  - intros Hnew. unfold coordinators_add, coordinators_count.
    rewrite decide_False by done. simpl.
    rewrite filter_app, filter_cons_True, filter_nil by done.
    rewrite length_app. simpl. lia.
  - intros Hold. unfold coordinators_add, coordinators_remove, coordinators_count.
    rewrite decide_True by done. split; [done|]. simpl.
    rewrite list_filter_filter.
    apply inj_lt, (length_filter_remove (λ r : Z * Z, r.1 = job_pk self)); done.
Qed.

(** ** [helpers_and_coordinators] *)

(** Helper 1 holds two shifts of the job and coordinates it: listed once. *)
Example helpers_and_coordinators_example :
  helper_pk <$> helpers_and_coordinators ex_store ex_job = [1; 2].
Proof. vm_compute. reflexivity. Qed.

(** C8: the result is the union, as sets, of the helpers that hold at
    least one shift of the job and of the helpers listed as its
    coordinators: each of them is in the result, nobody else is, and no
    helper is listed twice, be it coordinator and shift holder at once or
    holder of several shifts. *)
Theorem helpers_and_coordinators_union st self :
  (∀ h, h ∈ helpers_and_coordinators st self
        ↔ h ∈ tbl_helper st ∧ (holds_shift st self h ∨ is_coordinator st self h))
  ∧ NoDup (helpers_and_coordinators st self).
Proof.
  unfold helpers_and_coordinators. split; [|apply NoDup_remove_dups].
  intros h. rewrite elem_of_remove_dups, list_elem_of_fmap. split.
  - intros ([[h' sj] cj] & -> & Hrow). simpl.
    apply list_elem_of_filter in Hrow as [Hwhere Hrow].
    apply Is_true_true, where_job_true in Hwhere. simpl in Hwhere.
    apply list_elem_of_bind in Hrow as (h0 & Hrow & Hh0).
    apply list_elem_of_bind in Hrow as (sj0 & Hrow & Hsj).
    apply list_elem_of_bind in Hrow as (cj0 & Hrow & Hcj).
    apply list_elem_of_singleton in Hrow as [= -> -> ->].
    split; [done|]. destruct Hwhere as [->| ->].
    + left. by apply joined_shift_jobs_Some.
    + right. by apply joined_coordinated_jobs_Some.
  - intros [Hh Hor].
    assert (∃ sj cj, sj ∈ joined_shift_jobs st h
                     ∧ cj ∈ joined_coordinated_jobs st h
                     ∧ where_job (job_pk self) (h, sj, cj) = true)
      as (sj & cj & Hsj & Hcj & Hwhere).
    { destruct Hor as [Hs|Hc].
      - destruct (outer_inhabited
                    (Some ∘ fst <$> filter (λ r, r.2 = helper_pk h)
                                      (tbl_job_coordinators st))) as [cj Hcj].
        exists (Some (job_pk self)), cj. split_and!; [|done|].
        + by apply joined_shift_jobs_Some.
        + apply where_job_true. by left.
      - destruct (outer_inhabited
                    (r ← filter (λ r, r.1 = helper_pk h) (tbl_helper_shifts st);
                     outer (Some ∘ job_id
                              <$> filter (λ s, shift_pk s = r.2) (tbl_shift st))))
          as [sj Hsj].
        exists sj, (Some (job_pk self)). split_and!; [done| |].
        + by apply joined_coordinated_jobs_Some.
        + apply where_job_true. by right. }
    exists (h, sj, cj). split; [done|].
    apply list_elem_of_filter. split; [by apply Is_true_true|].
    apply list_elem_of_bind. exists h. split; [|done].
    apply list_elem_of_bind. exists sj. split; [|done].
    apply list_elem_of_bind. exists cj. split; [|done].
    by apply list_elem_of_singleton.
Qed.

(** ** [job_pre_save] *)

(** Saving [ex_job] twice under [badges = True]: one row of badge
    defaults, made by the first save. *)
Example Job_save_example :
  let '(job1, st1) := Job_save ex_job ex_store in
  let '(job2, st2) := Job_save job1 st1 in
  (tbl_badgedefaults st1 = [{| bd_pk := Some 1 |}]
   ∧ badge_defaults job1 = Some {| bd_pk := Some 1 |}
   ∧ tbl_badgedefaults st2 = tbl_badgedefaults st1
   ∧ job2 = job1).
Proof. vm_compute. done. Qed.

(** C5: on every save of a job,
    - when the event has [badges] and the job has no [badge_defaults],
      exactly one row of badge defaults is created (it is new, it is
      persisted) and the job written to the store refers to it;
    - when [badge_defaults] is set, no row is created and the value is
      kept: in particular a second save changes neither;
    - when the event has no [badges], no row is created. *)
Theorem job_save_badge_defaults st instance :
  let '(saved, st') := Job_save instance st in
  (saved ∈ tbl_job st'
  ∧ (badges (event instance) = true → badge_defaults instance = None →
     ∃ defaults,
       tbl_badgedefaults st' = tbl_badgedefaults st ++ [defaults]
       ∧ (defaults ∉ tbl_badgedefaults st)
       ∧ badge_defaults saved = Some defaults)
  ∧ (badges (event instance) = true → badge_defaults saved ≠ None)
  ∧ (∀ defaults, badge_defaults instance = Some defaults →
     tbl_badgedefaults st' = tbl_badgedefaults st
     ∧ badge_defaults saved = Some defaults)
  ∧ (tbl_badgedefaults (Job_save saved st').2 = tbl_badgedefaults st'
     ∧ badge_defaults (Job_save saved st').1 = badge_defaults saved)
  ∧ (badges (event instance) = false →
     tbl_badgedefaults st' = tbl_badgedefaults st
     ∧ badge_defaults saved = badge_defaults instance)).
Proof.
  unfold Job_save, job_pre_save.
  destruct (badges (event instance)) eqn:Hb,
           (badge_defaults instance) as [d|] eqn:Hd; simpl;
    rewrite ?Hb, ?Hd; simpl;
    split_and!; try done; try apply write_job_elem_of;
    try (by intros ? [= <-]); try (by intros; rewrite ?Hd).
  intros _ _. eexists. split_and!; [done| |done].
  intros Hin.
  apply (next_pk_fresh (omap bd_pk (tbl_badgedefaults st))).
  apply list_elem_of_omap. eexists. split; [exact Hin|done].
Qed.

(** ** The view [form] *)

Section form_claims.
Variable is_involved : Store → Event → User → bool.
Variable valid_link_pk : string → bool.
Variable form_clean : Store → RegisterForm → option CleanedData.
Variable send_mail : Helper → Request → bool → option Exception.

Local Abbreviation view_form := (form is_involved valid_link_pk form_clean send_mail).
Local Abbreviation view_handle_form := (handle_form form_clean send_mail).
Local Abbreviation reaches := (reaches_form is_involved valid_link_pk).

(** C2: when a submission validates and is saved and the confirmation
    mail then raises a transport error, the new helper stays in the store
    (the tables of helpers and of their shifts are as [save] left them),
    the response is the redirect to [registered] for that helper, and an
    error-level message about the mail is queued for the user. *)
Theorem form_mail_failure_keeps_registration
    st request event_url_name link_pk event link all_shifts st_saved helper e :
  reaches st request event_url_name link_pk event link all_shifts →
  is_valid form_clean st (form_of request event link all_shifts) = true →
  RegisterForm_save form_clean (form_of request event link all_shifts) st
  = (st_saved, Return helper) →
  send_mail helper request false = Some e →
  isinstance_SMTPException e = true →
  ∃ st_final,
    view_form request event_url_name link_pk st
    = (st_final,
       Return (HttpResponseRedirect "registered"
                 [ArgStr (url_name event); ArgInt (helper_pk helper)]))
    ∧ helper ∈ tbl_helper st_final
    ∧ (helper_pk helper ∉ helper_pk <$> tbl_helper st)
    ∧ tbl_helper st_final = tbl_helper st_saved
    ∧ tbl_helper_shifts st_final = tbl_helper_shifts st_saved
    ∧ messages st_final = messages st ++ [(ERROR, mail_failed_text)].
Proof.
  intros Hreach Hvalid Hsave Hmail Hsmtp.
  rewrite (form_reaches_handle_form _ _ _ _ _ _ _ _ _ _ _ Hreach).
  pose proof (handle_form_valid form_clean send_mail _ _ _ _ _ Hvalid) as H.
  rewrite Hsave in H. destruct H as (h & [= <-] & ->).
  rewrite Hmail, Hsmtp. eexists. split; [done|].
  unfold RegisterForm_save in Hsave. injection Hsave as <- <-. simpl.
  split_and!; try done.
  - apply elem_of_app. right. left.
  - apply next_pk_fresh.
Qed.

(** C10: only the SMTP family of exceptions is caught around the mail:
    any other exception raised by [send_mail] leaves the view, after the
    helper was saved; the helper stays in the store, no redirect is
    returned and no message is queued. *)
Theorem form_other_exception_propagates
    st request event_url_name link_pk event link all_shifts st_saved helper e :
  reaches st request event_url_name link_pk event link all_shifts →
  is_valid form_clean st (form_of request event link all_shifts) = true →
  RegisterForm_save form_clean (form_of request event link all_shifts) st
  = (st_saved, Return helper) →
  send_mail helper request false = Some e →
  isinstance_SMTPException e = false →
  view_form request event_url_name link_pk st = (st_saved, Raise e)
  ∧ helper ∈ tbl_helper st_saved
  ∧ (helper_pk helper ∉ helper_pk <$> tbl_helper st)
  ∧ messages st_saved = messages st.
Proof.
  intros Hreach Hvalid Hsave Hmail Hsmtp.
  rewrite (form_reaches_handle_form _ _ _ _ _ _ _ _ _ _ _ Hreach).
  pose proof (handle_form_valid form_clean send_mail _ _ _ _ _ Hvalid) as H.
  rewrite Hsave in H. destruct H as (h & [= <-] & ->).
  rewrite Hmail, Hsmtp. split; [done|].
  unfold RegisterForm_save in Hsave. injection Hsave as <- <-. simpl.
  split_and!; try done.
  - apply elem_of_app. right. left.
  - apply next_pk_fresh.
Qed.

(** C3, amended: for a request whose event resolves,
    - when no link is given and the event is not active, a requester who
      is not authenticated gets the "not active" page and one who is
      authenticated but not involved in the event gets the "no
      permission" page;
    - when no link is given and the event is active, or when the link
      given exists and is a link of the event, the request goes on to
      "handle form", whoever the requester is. *)
Theorem form_permission_gate st request event_url_name link_pk event :
  get_event_or_404 event_url_name st = (st, Return event) →
  (link_given link_pk = None → active event = false →
   (is_authenticated (user request) = false →
    view_form request event_url_name link_pk st
    = (st, Return (render "registration/not_active.html"
                     [("event", CtxEvent event)])))
   ∧ (is_authenticated (user request) = true →
      is_involved st event (user request) = false →
      view_form request event_url_name link_pk st
      = (st, Return (nopermission request))))
  ∧ (link_given link_pk = None → active event = true →
     view_form request event_url_name link_pk st
     = view_handle_form request event None None st)
  ∧ (∀ pk link,
       link_given link_pk = Some pk →
       Link_objects_get valid_link_pk st pk = LinkFound link →
       link_event_id link = event_pk event →
       view_form request event_url_name link_pk st
       = view_handle_form request event (Some link)
           (Some (Link_shifts_all st link)) st).
Proof.
  intros Hev. split_and!.
  - intros Hno Hclosed. unfold form, check_permission. view_unfold.
    rewrite Hev, Hno, Hclosed. simpl. split.
    + by intros ->.
    + by intros -> ->.
  - intros Hno Hopen. apply form_reaches_handle_form.
    split_and!; [done| |by left]. unfold link_resolved. by rewrite Hno.
  - intros pk link Hgiven Hfound Hsame. apply form_reaches_handle_form.
    split_and!; [done| |right; left; by eexists].
    unfold link_resolved. rewrite Hgiven. eauto.
Qed.

(** C4: for a request whose event resolves and that gives a link
    identifier, an identifier that is malformed or that no link carries
    is answered by the "invalid link" page, a response and not an
    exception; an identifier that is well formed and carried by a link of
    the table, every link that carries it belonging to another event, is
    answered by the exception [Http404].  Primary keys being unique,
    that is: the link [link] of the table with that key belongs to
    another event. *)
Theorem form_link_resolution st request event_url_name pk event :
  get_event_or_404 event_url_name st = (st, Return event) →
  pk ≠ "" →
  (valid_link_pk pk = false ∨ pk ∉ link_pk <$> tbl_link st →
   view_form request event_url_name (Some pk) st
   = (st, Return (render "registration/invalid_link.html"
                    [("event", CtxEvent event)])))
  ∧ (valid_link_pk pk = true →
     pk ∈ link_pk <$> tbl_link st →
     (∀ link, link ∈ tbl_link st → link_pk link = pk →
              link_event_id link ≠ event_pk event) →
     view_form request event_url_name (Some pk) st = (st, Raise Http404))
  ∧ (∀ link,
       valid_link_pk pk = true →
       NoDup (link_pk <$> tbl_link st) →
       link ∈ tbl_link st → link_pk link = pk →
       link_event_id link ≠ event_pk event →
       view_form request event_url_name (Some pk) st = (st, Raise Http404)).
Proof.
  intros Hev Hpk.
  assert (Hgiven : link_given (Some pk) = Some pk).
  { unfold link_given. by rewrite bool_decide_eq_false_2. }
  assert (H404 : valid_link_pk pk = true →
                 pk ∈ link_pk <$> tbl_link st →
                 (∀ link, link ∈ tbl_link st → link_pk link = pk →
                          link_event_id link ≠ event_pk event) →
                 view_form request event_url_name (Some pk) st
                 = (st, Raise Http404)).
  { intros Hvalid Hin Hother. unfold form. view_unfold.
    rewrite Hev, Hgiven. unfold Link_objects_get. rewrite Hvalid.
    destruct (list_find _ _) as [[i l]|] eqn:Hfind.
    - apply list_find_Some in Hfind as (Hl & Hlpk & _).
      rewrite bool_decide_eq_true_2; [done|].
      apply Hother; [|done]. by eapply list_elem_of_lookup_2.
    - apply list_find_None in Hfind. rewrite Forall_forall in Hfind.
      apply list_elem_of_fmap in Hin as (l & -> & Hl).
      by destruct (Hfind l Hl). }
  split_and!.
  - intros Hbad. unfold form. view_unfold. rewrite Hev, Hgiven.
    unfold Link_objects_get. destruct Hbad as [->|Hnone]; [done|].
    destruct (valid_link_pk pk); [|done].
    destruct (list_find _ _) as [[i l]|] eqn:Hfind; [|done].
    apply list_find_Some in Hfind as (Hl & Hlpk & _).
    destruct Hnone. apply list_elem_of_fmap. exists l. split; [done|].
    by eapply list_elem_of_lookup_2.
  - exact H404.
  - intros link Hvalid Hnd Hlink Hlpk Hother. apply H404; [done| |].
    + apply list_elem_of_fmap. by exists link.
    + intros l Hl Heq.
      assert (l = link) as ->; [|done].
      apply (NoDup_fmap_elem_inj link_pk (tbl_link st)); try done.
      by rewrite Heq.
Qed.

End form_claims.

(** ** The view [validate] *)

(** C6: for a helper that is reached under an event, [validate] fails
    with 404 and leaves the store alone when the event does not use mail
    validation; when it does, [validate] reports whether the helper was
    validated before, sets [validated] and writes the helper, so that the
    helper is then found validated, and a second call ends in the same
    store and differs from the first only in reporting the helper as
    validated already. *)
Theorem validate_sets_validated st request request' event_url_name helper_id
    event helper :
  get_or_404 event_url_name helper_id st = (st, Return (event, helper)) →
  if mail_validation event then
    ∃ st1,
      validate request event_url_name helper_id st
      = (st1, Return (render "registration/validate.html"
                        [("event", CtxEvent event);
                         ("already_validated", CtxBool (validated helper))]))
      ∧ get_or_404 event_url_name helper_id st1
        = (st1, Return (event, set_validated true helper))
      ∧ set_validated true helper ∈ tbl_helper st1
      ∧ validate request' event_url_name helper_id st1
        = (st1, Return (render "registration/validate.html"
                          [("event", CtxEvent event);
                           ("already_validated", CtxBool true)]))
  else
    validate request event_url_name helper_id st = (st, Raise Http404).
Proof.
  intros Hget.
  pose proof Hget as (_ & Hev & (i & Hfind) & Hin)%get_or_404_Return_inv.
  assert (Hpk : helper_pk helper = helper_id).
  { by apply list_find_Some in Hfind as (_ & ? & _). }
  subst helper_id.
  destruct (write_helper_found (set_validated true helper) _ _ _ Hfind)
    as [Hfind1 Hidem].
  set (st1 := set_tbl_helper
                (write_helper (set_validated true helper) (tbl_helper st)) st).
  assert (Hget1 : get_or_404 event_url_name (helper_pk helper) st1
                  = (st1, Return (event, set_validated true helper))).
  { unfold get_or_404. view_unfold.
    rewrite (get_event_or_404_tbl st st1 _ event) by done.
    subst st1. simpl in *. rewrite Hfind1.
    change (helper_in_event _ event (set_validated true helper))
      with (helper_in_event st event helper).
    by rewrite Hin. }
  unfold validate. view_unfold. rewrite Hget.
  destruct (mail_validation event) eqn:Hmv; simpl; [|done].
  exists st1. split_and!; try done.
  - eapply list_elem_of_lookup_2.
    by apply list_find_Some in Hfind1 as (? & _).
  - rewrite Hget1, Hmv. simpl. subst st1. simpl.
    change (set_validated true (set_validated true helper))
      with (set_validated true helper).
    rewrite Hidem. done.
Qed.

(** ** The claims on the example store *)

(** The helper a valid submission creates in [ex_store], and the store
    after [save]. *)
Definition ex_new_helper (mail : string) : Helper :=
  {| helper_pk := 4; email := mail; validated := false |}.

Definition ex_store_saved (mail : string) : Store :=
  set_tbl_helper_shifts (tbl_helper_shifts ex_store ++ [(4, 1)])
    (set_tbl_helper (tbl_helper ex_store ++ [ex_new_helper mail]) ex_store).

Lemma ex_reaches_form mail :
  reaches_form ex_is_involved ex_valid_link_pk ex_store (ex_post mail)
    "sommerfest" None ex_event None None.
Proof. split_and!; [reflexivity|split; reflexivity|left; reflexivity]. Defined.

Lemma form_mail_failure_keeps_registration_witness :
  ∃ st_final,
    form ex_is_involved ex_valid_link_pk ex_form_clean ex_send_mail
      (ex_post "refused@example.org") "sommerfest" None ex_store
    = (st_final,
       Return (HttpResponseRedirect "registered"
                 [ArgStr (url_name ex_event);
                  ArgInt (helper_pk (ex_new_helper "refused@example.org"))]))
    ∧ ex_new_helper "refused@example.org" ∈ tbl_helper st_final
    ∧ (helper_pk (ex_new_helper "refused@example.org")
       ∉ helper_pk <$> tbl_helper ex_store)
    ∧ tbl_helper st_final = tbl_helper (ex_store_saved "refused@example.org")
    ∧ tbl_helper_shifts st_final
      = tbl_helper_shifts (ex_store_saved "refused@example.org")
    ∧ messages st_final = messages ex_store ++ [(ERROR, mail_failed_text)].
Proof.
  apply (form_mail_failure_keeps_registration
           ex_is_involved ex_valid_link_pk ex_form_clean ex_send_mail
           ex_store (ex_post "refused@example.org") "sommerfest" None ex_event
           None None (ex_store_saved "refused@example.org")
           (ex_new_helper "refused@example.org")
           (SMTPException (Some "SMTPRecipientsRefused"))).
  - apply ex_reaches_form.
  - reflexivity.
  - reflexivity.
  - reflexivity.
  - reflexivity.
Defined.

Lemma form_other_exception_propagates_witness :
  form ex_is_involved ex_valid_link_pk ex_form_clean ex_send_mail
    (ex_post "broken@example.org") "sommerfest" None ex_store
  = (ex_store_saved "broken@example.org", Raise (OtherException "socket.error"))
  ∧ ex_new_helper "broken@example.org"
    ∈ tbl_helper (ex_store_saved "broken@example.org")
  ∧ (helper_pk (ex_new_helper "broken@example.org")
     ∉ helper_pk <$> tbl_helper ex_store)
  ∧ messages (ex_store_saved "broken@example.org") = messages ex_store.
Proof.
  apply (form_other_exception_propagates
           ex_is_involved ex_valid_link_pk ex_form_clean ex_send_mail
           ex_store (ex_post "broken@example.org") "sommerfest" None ex_event
           None None (ex_store_saved "broken@example.org")
           (ex_new_helper "broken@example.org")
           (OtherException "socket.error")).
  - apply ex_reaches_form.
  - reflexivity.
  - reflexivity.
  - reflexivity.
  - reflexivity.
Defined.

(** C3, as worded, fails when a link is given that does not exist: the
    event is closed, no valid link is given and the requester is not
    authenticated, yet the answer is the "invalid link" page and not the
    "not active" page. *)
Lemma form_closed_event_unknown_link :
  get_event_or_404 "winterfest" ex_store = (ex_store, Return ex_event_closed)
  ∧ active ex_event_closed = false
  ∧ Link_objects_get ex_valid_link_pk ex_store "k9" = LinkDoesNotExist
  ∧ is_authenticated (user ex_get) = false
  ∧ form ex_is_involved ex_valid_link_pk ex_form_clean ex_send_mail
      ex_get "winterfest" (Some "k9") ex_store
    = (ex_store, Return (render "registration/invalid_link.html"
                           [("event", CtxEvent ex_event_closed)]))
  ∧ form ex_is_involved ex_valid_link_pk ex_form_clean ex_send_mail
      ex_get "winterfest" (Some "k9") ex_store
    ≠ (ex_store, Return (render "registration/not_active.html"
                           [("event", CtxEvent ex_event_closed)])).
Proof. split_and!; try reflexivity. vm_compute. discriminate. Qed.

Lemma form_permission_gate_witness :
  (link_given None = None → active ex_event_closed = false →
   (is_authenticated (user ex_get) = false →
    form ex_is_involved ex_valid_link_pk ex_form_clean ex_send_mail
      ex_get "winterfest" None ex_store
    = (ex_store, Return (render "registration/not_active.html"
                           [("event", CtxEvent ex_event_closed)])))
   ∧ (is_authenticated (user ex_get) = true →
      ex_is_involved ex_store ex_event_closed (user ex_get) = false →
      form ex_is_involved ex_valid_link_pk ex_form_clean ex_send_mail
        ex_get "winterfest" None ex_store
      = (ex_store, Return (nopermission ex_get))))
  ∧ (link_given None = None → active ex_event_closed = true →
     form ex_is_involved ex_valid_link_pk ex_form_clean ex_send_mail
       ex_get "winterfest" None ex_store
     = handle_form ex_form_clean ex_send_mail ex_get ex_event_closed None None
         ex_store)
  ∧ (∀ pk link,
       link_given None = Some pk →
       Link_objects_get ex_valid_link_pk ex_store pk = LinkFound link →
       link_event_id link = event_pk ex_event_closed →
       form ex_is_involved ex_valid_link_pk ex_form_clean ex_send_mail
         ex_get "winterfest" None ex_store
       = handle_form ex_form_clean ex_send_mail ex_get ex_event_closed
           (Some link) (Some (Link_shifts_all ex_store link)) ex_store).
Proof.
  apply (form_permission_gate ex_is_involved ex_valid_link_pk ex_form_clean
           ex_send_mail ex_store ex_get "winterfest" None ex_event_closed).
  reflexivity.
Defined.

(** The gate on the example store: the closed event turns away the
    anonymous requester and the user who is not involved, and lets
    through the involved user and whoever comes with a link of the
    event. *)
Example form_gate_examples :
  let stranger := {| user := {| user_pk := Some 5; is_authenticated := true |};
                     POST := [] |} in
  let organiser := {| user := {| user_pk := Some 1; is_authenticated := true |};
                      POST := [] |} in
  let view := form ex_is_involved ex_valid_link_pk ex_form_clean ex_send_mail in
  let form_page request link shifts :=
    (ex_store,
     Return (render "registration/form.html"
               [("event", CtxEvent ex_event_closed);
                ("form", CtxForm (form_of request ex_event_closed link shifts))])) in
  view ex_get "winterfest" None ex_store
  = (ex_store, Return (render "registration/not_active.html"
                         [("event", CtxEvent ex_event_closed)]))
  ∧ view stranger "winterfest" None ex_store = (ex_store, Return NoPermissionPage)
  ∧ view organiser "winterfest" None ex_store = form_page organiser None None
  ∧ view ex_get "winterfest" (Some "k2") ex_store
    = form_page ex_get (Some {| link_pk := "k2"; link_event_id := 2 |}) (Some []).
Proof. split_and!; reflexivity. Qed.

Lemma form_link_resolution_witness :
  form ex_is_involved ex_valid_link_pk ex_form_clean ex_send_mail
    ex_get "sommerfest" (Some "no-link") ex_store
  = (ex_store, Return (render "registration/invalid_link.html"
                         [("event", CtxEvent ex_event)]))
  ∧ form ex_is_involved ex_valid_link_pk ex_form_clean ex_send_mail
      ex_get "sommerfest" (Some "k9") ex_store
    = (ex_store, Return (render "registration/invalid_link.html"
                           [("event", CtxEvent ex_event)]))
  ∧ form ex_is_involved ex_valid_link_pk ex_form_clean ex_send_mail
      ex_get "sommerfest" (Some "k2") ex_store
    = (ex_store, Raise Http404)
  ∧ form ex_is_involved ex_valid_link_pk ex_form_clean ex_send_mail
      ex_get "winterfest" (Some "k1") ex_store
    = (ex_store, Raise Http404).
Proof.
  assert (Hsommer : get_event_or_404 "sommerfest" ex_store
                    = (ex_store, Return ex_event)) by reflexivity.
  assert (Hwinter : get_event_or_404 "winterfest" ex_store
                    = (ex_store, Return ex_event_closed)) by reflexivity.
  split_and!.
  - (* malformed *)
    refine (proj1 (form_link_resolution ex_is_involved ex_valid_link_pk
                     ex_form_clean ex_send_mail ex_store ex_get "sommerfest"
                     "no-link" ex_event Hsommer _) _); [discriminate|].
    left. reflexivity.
  - (* well formed, carried by no link *)
    refine (proj1 (form_link_resolution ex_is_involved ex_valid_link_pk
                     ex_form_clean ex_send_mail ex_store ex_get "sommerfest"
                     "k9" ex_event Hsommer _) _); [discriminate|].
    right. apply (bool_decide_unpack _). vm_compute. exact I.
  - (* the link of the other event, every link with that key *)
    refine (proj1 (proj2 (form_link_resolution ex_is_involved ex_valid_link_pk
                     ex_form_clean ex_send_mail ex_store ex_get "sommerfest"
                     "k2" ex_event Hsommer _)) _ _ _);
      [discriminate|reflexivity| |].
    + apply (bool_decide_unpack _). vm_compute. exact I.
    + intros link Hlink Hkey. simpl in Hlink.
      apply elem_of_cons in Hlink as [->|Hlink]; [discriminate|].
      apply list_elem_of_singleton in Hlink as ->. discriminate.
  - (* the link of the other event, keys being unique *)
    refine (proj2 (proj2 (form_link_resolution ex_is_involved ex_valid_link_pk
                     ex_form_clean ex_send_mail ex_store ex_get "winterfest"
                     "k1" ex_event_closed Hwinter _))
              {| link_pk := "k1"; link_event_id := 1 |} _ _ _ _ _);
      [discriminate|reflexivity| |left|reflexivity|discriminate].
    apply (bool_decide_unpack _). vm_compute. exact I.
Defined.

(** The three ways "get link if given" ends, on the example store: a
    malformed key and an unknown key give the page, the link of another
    event gives 404. *)
Example form_link_examples :
  form ex_is_involved ex_valid_link_pk ex_form_clean ex_send_mail
    ex_get "sommerfest" (Some "no-link") ex_store
  = (ex_store, Return (render "registration/invalid_link.html"
                         [("event", CtxEvent ex_event)]))
  ∧ form ex_is_involved ex_valid_link_pk ex_form_clean ex_send_mail
      ex_get "sommerfest" (Some "k9") ex_store
    = (ex_store, Return (render "registration/invalid_link.html"
                           [("event", CtxEvent ex_event)]))
  ∧ form ex_is_involved ex_valid_link_pk ex_form_clean ex_send_mail
      ex_get "sommerfest" (Some "k2") ex_store
    = (ex_store, Raise Http404).
Proof. split_and!; reflexivity. Qed.

Lemma validate_sets_validated_witness :
  if mail_validation ex_event then
    ∃ st1,
      validate ex_get "sommerfest" 1 ex_store
      = (st1, Return (render "registration/validate.html"
                        [("event", CtxEvent ex_event);
                         ("already_validated",
                          CtxBool (validated (ex_helper 1 "a@example.org")))]))
      ∧ get_or_404 "sommerfest" 1 st1
        = (st1, Return (ex_event, set_validated true (ex_helper 1 "a@example.org")))
      ∧ set_validated true (ex_helper 1 "a@example.org") ∈ tbl_helper st1
      ∧ validate ex_get "sommerfest" 1 st1
        = (st1, Return (render "registration/validate.html"
                          [("event", CtxEvent ex_event);
                           ("already_validated", CtxBool true)]))
  else
    validate ex_get "sommerfest" 1 ex_store = (ex_store, Raise Http404).
Proof.
  apply (validate_sets_validated ex_store ex_get ex_get "sommerfest" 1 ex_event
           (ex_helper 1 "a@example.org")).
  vm_compute. reflexivity.
Defined.

(** * Further properties *)

(** ** [shifts_by_day] *)

(** X1: looking a day up in the result gives the shifts that begin on
    that day, stably sorted by start time; a day on which no shift begins
    is not a key, so no bucket is empty. *)
Theorem shifts_by_day_getitem st self shifts d :
  od_getitem d (shifts_by_day st self shifts)
  = match filter (on_day d) (shifts_used st self shifts) with
    | [] => None
    | l => Some (sort_begin l)
    end.
Proof.
  rewrite shifts_by_day_days_sorted.
  set (S := shifts_used st self shifts).
  pose proof (days_sorted_grouped S) as [Hkeys Hnd _ _ _ _ _].
  destruct (od_getitem d (days_sorted S)) as [l|] eqn:Hget.
  - apply od_getitem_elem_of in Hget; [|done].
    apply days_sorted_elem_of in Hget as [-> Hne].
    by destruct (filter (on_day d) S).
  - destruct (filter (on_day d) S) as [|s l] eqn:Hf; [done|].
    destruct (od_sort_day_key (days_sorted S) d) as [l' Hl'];
      [|by rewrite Hget in Hl'].
    apply Hkeys. exists s. apply and_comm, (list_elem_of_filter (on_day d)).
    rewrite Hf. left.
Qed.

(** X2: read bucket after bucket, the result lists the shifts in
    chronological order: it is the stable sort by start time of the
    shifts that were grouped. *)
Theorem shifts_by_day_flatten st self shifts :
  concat (shifts_by_day st self shifts).*2
  = sort_begin (shifts_used st self shifts).
Proof. apply grouped_concat, shifts_by_day_grouped. Qed.

(** X3: for shifts given explicitly and not empty, neither the job nor
    the store is consulted: any job in any store gives the same mapping.
    The order in which the shifts are given matters only among shifts that
    start at the same time: when the start times are pairwise distinct,
    every permutation of the shifts gives the same mapping. *)
Theorem shifts_by_day_order_irrelevant st self (S : list Shift) :
  S ≠ [] →
  (∀ st' self',
     shifts_by_day st self (Some S) = shifts_by_day st' self' (Some S))
  ∧ (∀ st' self' S',
       S ≡ₚ S' → NoDup (begin <$> S) →
       shifts_by_day st self (Some S) = shifts_by_day st' self' (Some S')).
Proof.
  intros Hne. split.
  - intros st' self'. rewrite !shifts_by_day_days_sorted. by destruct S.
  - intros st' self' S' Hperm Hnd. rewrite !shifts_by_day_days_sorted.
    assert (S' ≠ []) by (intros ->; by apply Permutation_nil_r in Hperm).
    destruct S, S'; try done. simpl.
    apply days_sorted_ext. intros b. by apply distinct_begin_groups.
Qed.

Lemma shifts_by_day_order_irrelevant_witness :
  shifts_by_day ex_store ex_job (Some ex_shifts)
  = shifts_by_day (set_tbl_job [] (set_messages [(INFO, "hello")] ex_store))
      ex_job_new (Some ex_shifts)
  ∧ shifts_by_day ex_store ex_job
      (Some [ex_shift 1 2016 5 2 10 0; ex_shift 2 2016 5 1 12 0;
             ex_shift 3 2016 5 2 8 0])
    = shifts_by_day ex_store ex_job_new
        (Some ([ex_shift 2 2016 5 1 12 0; ex_shift 3 2016 5 2 8 0]
               ++ [ex_shift 1 2016 5 2 10 0])).
Proof.
  split.
  - refine (proj1 (shifts_by_day_order_irrelevant ex_store ex_job ex_shifts _)
              _ _).
    discriminate.
  - refine (proj2 (shifts_by_day_order_irrelevant ex_store ex_job
                     [ex_shift 1 2016 5 2 10 0; ex_shift 2 2016 5 1 12 0;
                      ex_shift 3 2016 5 2 8 0] _) _ _ _ _ _).
    + discriminate.
    + apply Permutation_cons_append.
    + apply (bool_decide_unpack _). vm_compute. exact I.
Defined.

(** X4: grouping is idempotent: the shifts of the result, read bucket
    after bucket and grouped again, give the same mapping. *)
Theorem shifts_by_day_regroup st self (S : list Shift) :
  S ≠ [] →
  shifts_by_day st self (Some (concat (shifts_by_day st self (Some S)).*2))
  = shifts_by_day st self (Some S).
Proof.
  intros Hne.
  rewrite (grouped_concat _ _ (shifts_by_day_grouped st self (Some S))).
  assert (Hused : shifts_used st self (Some S) = S) by (by destruct S).
  rewrite Hused, !shifts_by_day_days_sorted.
  assert (Hne' : sort_begin S ≠ []).
  { intros Hnil. by apply sorted_nil_inv in Hnil. }
  assert (Hused' : shifts_used st self (Some (sort_begin S)) = sort_begin S)
    by (by destruct (sort_begin S)).
  rewrite Hused, Hused'. apply days_sorted_ext. intros b.
  apply sort_begin_stable.
Qed.

Lemma shifts_by_day_regroup_witness :
  shifts_by_day ex_store ex_job
    (Some (concat (shifts_by_day ex_store ex_job (Some ex_shifts)).*2))
  = shifts_by_day ex_store ex_job (Some ex_shifts).
Proof. apply shifts_by_day_regroup. discriminate. Defined.

(** X5: called without shifts, the result holds the shifts of the job and
    no other: every shift in a bucket is a row of the shift table that
    belongs to the job, and every such row is in the bucket of its day. *)
Theorem shifts_by_day_default_job_only st self (s : Shift) :
  (∃ d l, (d, l) ∈ shifts_by_day st self None ∧ s ∈ l)
  ↔ s ∈ tbl_shift st ∧ job_id s = job_pk self.
Proof.
  pose proof (shifts_by_day_grouped st self None) as [_ _ _ _ Hperm _ _].
  simpl in Hperm. unfold shift_set in Hperm.
  assert (Hmem : s ∈ concat (shifts_by_day st self None).*2
                 ↔ s ∈ tbl_shift st ∧ job_id s = job_pk self).
  { rewrite Hperm, list_elem_of_filter. tauto. }
  rewrite <- Hmem, elem_of_concat. split.
  - intros (d & l & Hin & Hs). exists l. split; [done|].
    apply list_elem_of_fmap. by exists (d, l).
  - intros (l & Hs & ([d l'] & -> & Hin)%list_elem_of_fmap). eauto.
Qed.

(** ** [is_admin] *)

Section is_admin_properties.
Variable Event_is_admin : Store → Event → User → bool.

(** X6: a user is admin of a job exactly when the event says so or the
    user has a primary key that the job lists among its [job_admins].
    So an admin of the event is admin of every job of that event, and a
    user without primary key (the anonymous user) is admin of a job only
    through the event. *)
Theorem is_admin_event_or_listed st self u :
  (is_admin Event_is_admin st self u = true
   ↔ Event_is_admin st (event self) u = true
     ∨ ∃ pk, user_pk u = Some pk ∧ (job_pk self, pk) ∈ tbl_job_job_admins st)
  ∧ (∀ other, event other = event self →
       Event_is_admin st (event self) u = true →
       is_admin Event_is_admin st other u = true)
  ∧ (user_pk u = None →
     is_admin Event_is_admin st self u = Event_is_admin st (event self) u).
Proof.
  unfold is_admin, job_admins_exists. split_and!.
  - rewrite orb_true_iff. destruct (user_pk u) as [pk|].
    + rewrite bool_decide_eq_true. split; intros [?|H]; auto.
      * right. by exists pk.
      * right. by destruct H as (? & [= <-] & ?).
    + split; intros [?|H]; auto; [done|]. by destruct H as (? & [=] & _).
  - intros other -> ->. done.
  - intros ->. by rewrite orb_false_r.
Qed.

End is_admin_properties.

(** ** [job_pre_save], further *)

(** X7: the receiver changes nothing but [badge_defaults] on the job and
    nothing but the table of badge defaults in the store, where it only
    ever adds at the end; run again on its own result it does nothing. *)
Theorem job_pre_save_frame st instance :
  let '(instance', st') := job_pre_save instance st in
  (instance' = set_badge_defaults (badge_defaults instance') instance
   ∧ st' = set_tbl_badgedefaults (tbl_badgedefaults st') st
   ∧ (∃ new, tbl_badgedefaults st' = tbl_badgedefaults st ++ new
             ∧ (length new ≤ 1)%nat)
   ∧ job_pre_save instance' st' = (instance', st')).
Proof.
  unfold job_pre_save.
  destruct (badges (event instance)) eqn:Hb,
           (badge_defaults instance) as [d|] eqn:Hd; simpl;
    rewrite ?Hb, ?Hd; simpl.
  all: split_and!; try done; try (by destruct instance, st; simpl in *; subst).
  all: try (exists []; rewrite app_nil_r; split; [done|simpl; lia]).
  eexists [_]. split; [done|simpl; lia].
Qed.

(** X8: saving a job keeps the one-to-one link sound.  If, before the
    save, every reference of a stored job names a row of badge defaults,
    no row is named by two jobs, and the same holds of the reference the
    instance carries (if any), then it holds after the save: the row the
    receiver creates is new, hence named by no other job. *)
Theorem Job_save_keeps_one_to_one st instance :
  badge_refs_sound st →
  (∀ d, badge_defaults instance = Some d →
     d ∈ tbl_badgedefaults st
     ∧ ∀ j, j ∈ tbl_job st → badge_defaults j = Some d →
            job_pk j = job_pk instance) →
  badge_refs_sound (Job_save instance st).2.
Proof.
  intros [Hin Hone] Hinst. unfold Job_save, job_pre_save.
  destruct (badges (event instance) && negb (truthy (badge_defaults instance)))
    eqn:Hhook; simpl.
  - (* a new row is created *)
    set (new := {| bd_pk := Some (next_pk (omap bd_pk (tbl_badgedefaults st))) |}).
    assert (Hfresh : new ∉ tbl_badgedefaults st).
    { intros Hnew. apply (next_pk_fresh (omap bd_pk (tbl_badgedefaults st))).
      apply list_elem_of_omap. eexists. split; [exact Hnew|done]. }
    split.
    + intros j d [->|Hj]%write_job_elem_of_inv Hd; simpl in *.
      * injection Hd as <-. apply elem_of_app. right. left.
      * apply elem_of_app. left. eauto.
    + intros j1 j2 d [->|Hj1]%write_job_elem_of_inv
        [->|Hj2]%write_job_elem_of_inv Hd1 Hd2; simpl in *; try done.
      * injection Hd1 as <-. destruct Hfresh. eauto.
      * injection Hd2 as <-. destruct Hfresh. eauto.
      * eauto.
  - (* the instance is written as it is *)
    split.
    + intros j d [->|Hj]%write_job_elem_of_inv Hd; simpl in *.
      * by apply Hinst.
      * eauto.
    + intros j1 j2 d [->|Hj1]%write_job_elem_of_inv
        [->|Hj2]%write_job_elem_of_inv Hd1 Hd2; simpl in *; try done.
      * symmetry. by apply (proj2 (Hinst d Hd1)).
      * by apply (proj2 (Hinst d Hd2)).
      * eauto.
Qed.

Lemma Job_save_keeps_one_to_one_witness :
  badge_refs_sound (Job_save ex_job ex_store).2.
Proof.
  apply Job_save_keeps_one_to_one.
  - split.
    + intros j d Hj Hd. simpl in Hj.
      apply elem_of_cons in Hj as [->|Hj]; [discriminate|].
      apply list_elem_of_singleton in Hj as ->. discriminate.
    + intros j1 j2 d Hj1 Hj2 Hd. simpl in Hj1.
      apply elem_of_cons in Hj1 as [->|Hj1]; [discriminate|].
      apply list_elem_of_singleton in Hj1 as ->. discriminate.
  - discriminate.
Defined.

(** ** [num_coordinators] and [helpers_and_coordinators] together *)

(** X9: for an event that is not archived, in a store that respects the
    keys (no pair is listed twice as coordinator, every listed coordinator
    is the primary key of a helper, and primary keys of helpers are
    unique), [num_coordinators] counts the coordinators that
    [helpers_and_coordinators] returns. *)
Theorem num_coordinators_counts_listed st self :
  archived (event self) = false →
  NoDup (tbl_job_coordinators st) →
  NoDup (helper_pk <$> tbl_helper st) →
  (∀ r, r ∈ tbl_job_coordinators st → r.2 ∈ helper_pk <$> tbl_helper st) →
  num_coordinators st self
  = Z.of_nat (length (filter (is_coordinator st self)
                        (helpers_and_coordinators st self))).
Proof.
  intros Harch Hrows Hpk Hfk. unfold num_coordinators, coordinators_count.
  rewrite Harch. f_equal.
  rewrite <- (length_fmap snd), <- (length_fmap helper_pk (filter _ _)).
  apply Permutation_length, NoDup_Permutation.
  - apply NoDup_fmap_2_strong; [|by apply NoDup_filter].
    intros [j1 p1] [j2 p2] [H1 _]%list_elem_of_filter [H2 _]%list_elem_of_filter.
    simpl in *. by intros ->; subst.
  - apply NoDup_fmap_2_strong.
    + intros x y [_ Hx]%list_elem_of_filter [_ Hy]%list_elem_of_filter.
      apply helpers_and_coordinators_elem_of in Hx as [Hx _], Hy as [Hy _].
      by apply (NoDup_fmap_elem_inj helper_pk (tbl_helper st)).
    + apply NoDup_filter. unfold helpers_and_coordinators.
      apply NoDup_remove_dups.
  - intros p. rewrite !list_elem_of_fmap. split.
    + intros ([j p'] & -> & [Hj Hr]%list_elem_of_filter). simpl in *. subst j.
      destruct (proj1 (list_elem_of_fmap _ _ _) (Hfk _ Hr)) as (h & Hp & Hh).
      simpl in Hp. exists h. split; [done|].
      apply list_elem_of_filter. unfold is_coordinator. rewrite <- Hp.
      split; [done|]. apply helpers_and_coordinators_elem_of.
      split; [done|]. right. unfold is_coordinator. by rewrite <- Hp.
    + intros (h & -> & [Hc _]%list_elem_of_filter).
      exists (job_pk self, helper_pk h). split; [done|].
      by apply list_elem_of_filter.
Qed.

Lemma num_coordinators_counts_listed_witness :
  num_coordinators ex_store ex_job
  = Z.of_nat (length (filter (is_coordinator ex_store ex_job)
                        (helpers_and_coordinators ex_store ex_job))).
Proof.
  apply num_coordinators_counts_listed.
  - reflexivity.
  - apply (bool_decide_unpack _). vm_compute. exact I.
  - apply (bool_decide_unpack _). vm_compute. exact I.
  - intros r Hr. simpl in Hr. apply list_elem_of_singleton in Hr as ->.
    simpl. left.
Defined.

(** ** The views [index] and [registered] *)

Section more_views_properties.
Variable is_involved : Store → Event → User → bool.
Variable news_test_email : Store → string → bool.

(** X10: [index] always answers with its page and leaves the store
    alone.  The page lists, in the order of the event table, the active
    events on one side and, on the other, the events that are not active
    and in which the user is involved; every listed event carries the
    [involved] flag of the user; no event is on both lists, and an event
    on neither is not active and not the user's. *)
Theorem index_lists_events st request :
  ∃ active_events involved_events,
    index is_involved request st
    = (st, Return (render_page "registration/index.html"
                     [("active_events", CtxEvents active_events);
                      ("involved_events", CtxEvents involved_events)]))
    ∧ active_events.*1 = filter (λ e, active e = true) (tbl_event st)
    ∧ involved_events.*1
      = filter (λ e, active e = false
                     ∧ is_involved st e (user request) = true) (tbl_event st)
    ∧ (∀ e b, (e, b) ∈ active_events ++ involved_events →
              b = is_involved st e (user request))
    ∧ (∀ e, e ∈ active_events.*1 → e ∉ involved_events.*1)
    ∧ (∀ e, e ∈ tbl_event st → e ∉ active_events.*1 → e ∉ involved_events.*1 →
            active e = false ∧ is_involved st e (user request) = false).
Proof.
  exists (filter (λ e, active e.1 = true) (index_events is_involved st request)),
    (filter (λ e, active e.1 = false ∧ e.2 = true)
       (index_events is_involved st request)).
  split; [reflexivity|].
  unfold index_events.
  rewrite (filter_annotated _ _ (λ e, active e = true)) by done.
  rewrite (filter_annotated _ _
             (λ e, active e = false ∧ is_involved st e (user request) = true))
    by done.
  split_and!; try done.
  - intros e b [Hin|Hin]%elem_of_app;
      apply list_elem_of_filter in Hin as [_ Hin];
      by apply list_elem_of_fmap in Hin as (? & [= -> ->] & _).
  - intros e [Ha _]%list_elem_of_filter [[Hn _] _]%list_elem_of_filter.
    congruence.
  - intros e He Hact Hinv.
    destruct (active e) eqn:Ha.
    { destruct Hact. by apply list_elem_of_filter. }
    split; [done|]. destruct (is_involved st e (user request)) eqn:Hi; [|done].
    destruct Hinv. by apply list_elem_of_filter.
Qed.

(** X11: [registered] never changes the store.  It fails, with 404 and
    nothing else, exactly when the helper is not reached under the event,
    and then [validate] fails with 404 for the same arguments; otherwise
    it shows the event and the helper that were looked up and what
    [news_test_email] says of the helper's address. *)
Theorem registered_shows_lookup st request event_url_name helper_id :
  (get_or_404 event_url_name helper_id st = (st, Raise Http404)
   ∧ registered news_test_email request event_url_name helper_id st
     = (st, Raise Http404)
   ∧ ∀ request', validate request' event_url_name helper_id st
                 = (st, Raise Http404))
  ∨ (∃ event helper,
       get_or_404 event_url_name helper_id st = (st, Return (event, helper))
       ∧ registered news_test_email request event_url_name helper_id st
         = (st, Return (render_page "registration/registered.html"
                          [("event", Ctx (CtxEvent event));
                           ("data", CtxHelper helper);
                           ("news", Ctx (CtxBool
                              (news_test_email st (email helper))))]))).
Proof.
  destruct (get_or_404_cases event_url_name helper_id st)
    as [Hget|(event & helper & Hget)].
  - left. split; [done|]. unfold registered, validate. view_unfold.
    by rewrite Hget.
  - right. exists event, helper. split; [done|].
    unfold registered. view_unfold. by rewrite Hget.
Qed.

End more_views_properties.

(** ** The view [form], further *)

Section form_properties.
Variable is_involved : Store → Event → User → bool.
Variable valid_link_pk : string → bool.
Variable form_clean : Store → RegisterForm → option CleanedData.
Variable send_mail : Helper → Request → bool → option Exception.

(** X12: a URL that names no event is answered by 404, whatever the
    link, the requester and the data posted; the link is not even looked
    up, and the store is left alone. *)
Theorem form_unknown_event st request event_url_name link_pk :
  event_url_name ∉ url_name <$> tbl_event st →
  form is_involved valid_link_pk form_clean send_mail
    request event_url_name link_pk st
  = (st, Raise Http404).
Proof.
  intros Hno. unfold form. view_unfold.
  destruct (get_event_or_404_cases event_url_name st)
    as [[-> _]|(e & _ & He & Hname)]; [done|].
  destruct Hno. apply list_elem_of_fmap. by exists e.
Qed.

(** X13: an empty link identifier counts as no link: the request is
    handled as the same request without link, and is not answered by the
    "invalid link" page. *)
Theorem form_empty_link_pk st request event_url_name :
  form is_involved valid_link_pk form_clean send_mail
    request event_url_name (Some "") st
  = form is_involved valid_link_pk form_clean send_mail
      request event_url_name None st.
Proof. reflexivity. Qed.

(** X14: a request without data (a GET), or one whose form, as the view
    builds it for the event and the link the request reaches, does not
    validate, never changes the store and is never redirected; the only
    exception it can meet is 404. *)
Theorem form_without_valid_data st request event_url_name link_pk :
  POST request = []
  ∨ (∀ event link all_shifts,
       reaches_form is_involved valid_link_pk st request event_url_name
         link_pk event link all_shifts →
       is_valid form_clean st (form_of request event link all_shifts) = false) →
  ∃ outcome,
    form is_involved valid_link_pk form_clean send_mail
      request event_url_name link_pk st
    = (st, outcome)
    ∧ (∀ viewname args, outcome ≠ Return (HttpResponseRedirect viewname args))
    ∧ (∀ e, outcome = Raise e → e = Http404).
Proof.
  intros Hdata.
  assert (Hvalid : ∀ event link all_shifts,
            reaches_form is_involved valid_link_pk st request event_url_name
              link_pk event link all_shifts →
            is_valid form_clean st (form_of request event link all_shifts) = false).
  { intros event link all_shifts Hreach.
    destruct Hdata as [Hget|Hnot]; [|by apply Hnot].
    unfold is_valid, form_of, POST_or_None. simpl. by rewrite Hget. }
  destruct (form_ends is_involved valid_link_pk form_clean send_mail
              st request event_url_name link_pk)
    as [-> | [[e ->] | [[e ->] | [-> | (e & l & s & Hreach & ->)]]]].
  - eexists. split_and!; [done|done|by intros ? [= <-]].
  - eexists. split_and!; [done|done|done].
  - eexists. split_and!; [done|done|done].
  - eexists. split_and!; [done|done|done].
  - rewrite handle_form_not_valid by (by apply Hvalid).
    eexists. split_and!; [done|done|done].
Qed.

(** X15: no exception of the SMTP family ever leaves the view: an
    exception that leaves [form] is not an instance of [SMTPException]. *)
Theorem form_never_raises_SMTPException st request event_url_name link_pk st' e :
  form is_involved valid_link_pk form_clean send_mail
    request event_url_name link_pk st
  = (st', Raise e) →
  isinstance_SMTPException e = false.
Proof.
  destruct (form_cases is_involved valid_link_pk form_clean send_mail
              st request event_url_name link_pk)
    as [->|[[ev ->]|(ev & l & s & Hcp)]]; [by intros [= _ <-]|done|].
  rewrite Hcp; clear Hcp.
  destruct (check_permission_cases is_involved form_clean send_mail
              st request ev l s) as [-> | [-> | ->]]; [done|done|].
  destruct (is_valid form_clean st (form_of request ev l s)) eqn:Hvalid.
  - pose proof (handle_form_valid form_clean send_mail _ _ _ _ _ Hvalid) as H.
    destruct (RegisterForm_save _ _ st) as [st_saved saved].
    destruct H as (h & -> & ->).
    destruct (send_mail h request false) as [e'|]; [|done].
    destruct (isinstance_SMTPException e') eqn:Hsmtp; [done|].
    by intros [= _ <-].
  - by rewrite handle_form_not_valid.
Qed.

(** X16: when the mail is sent, the view redirects to [registered] for
    the new helper, leaves the store as [save] left it and queues no
    message. *)
Theorem form_mail_sent
    st request event_url_name link_pk event link all_shifts st_saved helper :
  reaches_form is_involved valid_link_pk st request event_url_name link_pk
    event link all_shifts →
  is_valid form_clean st (form_of request event link all_shifts) = true →
  RegisterForm_save form_clean (form_of request event link all_shifts) st
  = (st_saved, Return helper) →
  send_mail helper request false = None →
  form is_involved valid_link_pk form_clean send_mail
    request event_url_name link_pk st
  = (st_saved,
     Return (HttpResponseRedirect "registered"
               [ArgStr (url_name event); ArgInt (helper_pk helper)]))
  ∧ messages st_saved = messages st.
Proof.
  intros Hreach Hvalid Hsave Hmail.
  rewrite (form_reaches_handle_form _ _ _ _ _ _ _ _ _ _ _ Hreach).
  pose proof (handle_form_valid form_clean send_mail _ _ _ _ _ Hvalid) as H.
  rewrite Hsave in H. destruct H as (h & [= <-] & ->).
  rewrite Hmail. split; [done|].
  unfold RegisterForm_save in Hsave. by injection Hsave as <- <-.
Qed.

End form_properties.

(** A submission that carries no address: [ex_form_clean] rejects it. *)
Definition ex_post_invalid : Request :=
  {| user := ex_anonymous; POST := [("name", "Erika")] |}.

Lemma form_without_valid_data_witness :
  (∃ outcome,
     form ex_is_involved ex_valid_link_pk ex_form_clean ex_send_mail
       ex_get "sommerfest" (Some "k1") ex_store = (ex_store, outcome)
     ∧ (∀ viewname args, outcome ≠ Return (HttpResponseRedirect viewname args))
     ∧ (∀ e, outcome = Raise e → e = Http404))
  ∧ (∃ outcome,
       form ex_is_involved ex_valid_link_pk ex_form_clean ex_send_mail
         ex_post_invalid "sommerfest" (Some "k1") ex_store = (ex_store, outcome)
       ∧ (∀ viewname args, outcome ≠ Return (HttpResponseRedirect viewname args))
       ∧ (∀ e, outcome = Raise e → e = Http404)).
Proof.
  split.
  - apply form_without_valid_data. left. reflexivity.
  - apply form_without_valid_data. right.
    intros event link all_shifts _. reflexivity.
Defined.

Lemma form_unknown_event_witness :
  form ex_is_involved ex_valid_link_pk ex_form_clean ex_send_mail
    (ex_post "a@example.org") "herbstfest" (Some "k1") ex_store
  = (ex_store, Raise Http404).
Proof.
  apply form_unknown_event. apply (bool_decide_unpack _). vm_compute. exact I.
Defined.

Lemma form_never_raises_SMTPException_witness :
  isinstance_SMTPException (OtherException "socket.error") = false.
Proof.
  apply (form_never_raises_SMTPException
           ex_is_involved ex_valid_link_pk ex_form_clean ex_send_mail
           ex_store (ex_post "broken@example.org") "sommerfest" None
           (ex_store_saved "broken@example.org")).
  reflexivity.
Defined.

Lemma form_mail_sent_witness :
  form ex_is_involved ex_valid_link_pk ex_form_clean ex_send_mail
    (ex_post "d@example.org") "sommerfest" None ex_store
  = (ex_store_saved "d@example.org",
     Return (HttpResponseRedirect "registered"
               [ArgStr (url_name ex_event);
                ArgInt (helper_pk (ex_new_helper "d@example.org"))]))
  ∧ messages (ex_store_saved "d@example.org") = messages ex_store.
Proof.
  apply (form_mail_sent
           ex_is_involved ex_valid_link_pk ex_form_clean ex_send_mail
           ex_store (ex_post "d@example.org") "sommerfest" None ex_event
           None None (ex_store_saved "d@example.org")
           (ex_new_helper "d@example.org")).
  - apply ex_reaches_form.
  - reflexivity.
  - reflexivity.
  - reflexivity.
Defined.

(** ** The view [validate], further *)

(** X17: in a store whose helpers have distinct primary keys, [validate]
    writes one row and nothing else: the row of the helper, now validated
    and otherwise as it was; every other row, every other table and the
    messages are untouched. *)
Theorem validate_writes_one_row st request event_url_name helper_id event helper :
  get_or_404 event_url_name helper_id st = (st, Return (event, helper)) →
  mail_validation event = true →
  NoDup (helper_pk <$> tbl_helper st) →
  ∃ i, tbl_helper st !! i = Some helper
       ∧ (validate request event_url_name helper_id st).1
         = set_tbl_helper (<[i := set_validated true helper]> (tbl_helper st)) st.
Proof.
  intros Hget Hmv Hnd.
  pose proof Hget as (_ & _ & (i & Hfind) & _)%get_or_404_Return_inv.
  apply list_find_Some in Hfind as (Hi & _ & _).
  exists i. split; [done|].
  unfold validate. view_unfold. rewrite Hget, Hmv. simpl.
  by rewrite (write_helper_insert _ helper _ i).
Qed.

Lemma validate_writes_one_row_witness :
  ∃ i, tbl_helper ex_store !! i = Some (ex_helper 1 "a@example.org")
       ∧ (validate ex_get "sommerfest" 1 ex_store).1
         = set_tbl_helper
             (<[i := set_validated true (ex_helper 1 "a@example.org")]>
                (tbl_helper ex_store)) ex_store.
Proof.
  apply (validate_writes_one_row ex_store ex_get "sommerfest" 1 ex_event).
  - vm_compute. reflexivity.
  - reflexivity.
  - apply (bool_decide_unpack _). vm_compute. exact I.
Defined.
